(** * stboot: locating and mounting a partition by its GPT label

    A shallow embedding of [partitions.go] (package main of stboot) and the
    properties of its label codec, partition locator, partition path
    resolver and retry loop.

    Conventions.
    - A Go [string] and a Go [[]byte] are both [list byte].
    - Go's fixed-width integers are [Z] with the truncation written out.
    - A function of the program that returns [(T, error)] returns a
      [res T]; a run-time panic (index out of range) is the third outcome
      [Panic].
    - The operating system is a [World] record of oracles, [None] where
      the call returns an error; the GPT parser has a third outcome, a
      panic; system calls append to an event trace. *)

From Stdlib Require Import Strings.Byte Strings.String Strings.Ascii.
From Stdlib Require Import DecimalString Decimal.
From Stdlib Require Import ZArith List Bool Lia Arith.
Import ListNotations.

Local Open Scope Z_scope.

(* ------------------------------------------------------------------ *)
(** ** Go values *)

Definition gostring := list byte.

(** A Go string literal. *)
Definition go (s : string) : gostring := list_byte_of_string s.

Definition gostring_eqb (a b : gostring) : bool :=
  if list_eq_dec Byte.byte_eq_dec a b then true else false.

(** [uint16(b)] for a byte [b], and the conversions that truncate. *)
Definition byte_val (b : byte) : Z := Z.of_N (Byte.to_N b).
Definition uint16 (z : Z) : Z := z mod 65536.
Definition uint32 (z : Z) : Z := z mod 4294967296.

(** [byte(x)]: keeps the low eight bits. *)
Definition to_byte (z : Z) : byte :=
  match Byte.of_N (Z.to_N (z mod 256)) with
  | Some b => b
  | None => x00
  end.

Inductive error : Type :=
| ErrReadFile                                   (* ioutil.ReadFile failed *)
| ErrFilesystemUnknown (fsType : gostring)      (* "filesystem unknown: %s" *)
| ErrWalk                                       (* "Walking %s returned an error" *)
| ErrGetBlockDevs (cause : error)               (* "getting block devices failed with" *)
| ErrNoBlockDevices                             (* "no non-loopback block devices found" *)
| ErrOddLabel                                   (* "label has odd number of bytes" *)
| ErrCannotFindPartition (p d : gostring) (devices : list gostring)
| ErrNoDeviceWithLabel (label : gostring)       (* "No device with partition labeled %s found" *)
| ErrGetDevice (label : gostring) (cause : error)
| ErrMountSyscall
| ErrMount (device : gostring) (cause : error).

Inductive res (A : Type) : Type :=
| Ok (a : A)
| Err (e : error)
| Panic.
Arguments Ok {A} a.
Arguments Err {A} e.
Arguments Panic {A}.

(* ------------------------------------------------------------------ *)
(** ** unicode/utf16 *)

Module utf16.

Definition replacementChar : Z := 0xFFFD.
Definition surr1 : Z := 0xd800.
Definition surr2 : Z := 0xdc00.
Definition surr3 : Z := 0xe000.
Definition surrSelf : Z := 0x10000.
Definition maxRune : Z := 0x10FFFF.

Definition IsSurrogate (r : Z) : bool := (surr1 <=? r) && (r <? surr3).

Definition DecodeRune (r1 r2 : Z) : Z :=
  if (surr1 <=? r1) && (r1 <? surr2) && (surr2 <=? r2) && (r2 <? surr3)
  then Z.lor (Z.shiftl (r1 - surr1) 10) (r2 - surr2) + surrSelf
  else replacementChar.

(** [Decode] walks the code units; a high surrogate followed by a low
    one is one rune, any other surrogate is U+FFFD. *)
Fixpoint Decode (s : list Z) : list Z :=
  match s with
  | [] => []
  | r :: t =>
      if (r <? surr1) || (surr3 <=? r) then r :: Decode t
      else
        match t with
        | r2 :: t' =>
            if (surr1 <=? r) && (r <? surr2) && (surr2 <=? r2) && (r2 <? surr3)
            then DecodeRune r r2 :: Decode t'
            else replacementChar :: Decode t
        | [] => [replacementChar]
        end
  end.

Definition EncodeRune (r : Z) : Z * Z :=
  if (r <? surrSelf) || (maxRune <? r) then (replacementChar, replacementChar)
  else
    let r' := r - surrSelf in
    (surr1 + Z.land (Z.shiftr r' 10) 0x3ff, surr2 + Z.land r' 0x3ff).

Definition Encode (s : list Z) : list Z :=
  flat_map (fun v =>
    if ((0 <=? v) && (v <? surr1)) || ((surr3 <=? v) && (v <? surrSelf))
    then [v]
    else if (surrSelf <=? v) && (v <=? maxRune)
    then let '(r1, r2) := EncodeRune v in [r1; r2]
    else [replacementChar]) s.

End utf16.

(* ------------------------------------------------------------------ *)
(** ** unicode/utf8 *)

Module utf8.

Definition RuneError : Z := 0xFFFD.
Definition MaxRune : Z := 0x10FFFF.
Definition surrogateMin : Z := 0xD800.
Definition surrogateMax : Z := 0xDFFF.
Definition t2 : Z := 0xC0.
Definition t3 : Z := 0xE0.
Definition t4 : Z := 0xF0.
Definition tx : Z := 0x80.
Definition maskx : Z := 0x3F.
Definition rune1Max : Z := 0x7F.
Definition rune2Max : Z := 0x7FF.
Definition rune3Max : Z := 0xFFFF.

Definition enc3 (r : Z) : list byte :=
  [ to_byte (Z.lor t3 (byte_val (to_byte (Z.shiftr r 12))));
    to_byte (Z.lor tx (Z.land (byte_val (to_byte (Z.shiftr r 6))) maskx));
    to_byte (Z.lor tx (Z.land (byte_val (to_byte r)) maskx)) ].

(** [EncodeRune(p, r)] writes the encoding at the start of [p] and
    returns its length [n]; the model returns the bytes [p[:n]]. *)
Definition EncodeRune (r : Z) : list byte :=
  let i := uint32 r in
  if i <=? rune1Max then [to_byte r]
  else if i <=? rune2Max then
    [ to_byte (Z.lor t2 (byte_val (to_byte (Z.shiftr r 6))));
      to_byte (Z.lor tx (Z.land (byte_val (to_byte r)) maskx)) ]
  else if (MaxRune <? i) || ((surrogateMin <=? i) && (i <=? surrogateMax))
  then enc3 RuneError
  else if i <=? rune3Max then enc3 r
  else
    [ to_byte (Z.lor t4 (byte_val (to_byte (Z.shiftr r 18))));
      to_byte (Z.lor tx (Z.land (byte_val (to_byte (Z.shiftr r 12))) maskx));
      to_byte (Z.lor tx (Z.land (byte_val (to_byte (Z.shiftr r 6))) maskx));
      to_byte (Z.lor tx (Z.land (byte_val (to_byte r)) maskx)) ].

Definition cont (b : Z) : bool := (0x80 <=? b) && (b <=? 0xBF).

(** The second byte a lead byte accepts (the package's accept ranges). *)
Definition accept3 (b0 b1 : Z) : bool :=
  if b0 =? 0xE0 then (0xA0 <=? b1) && (b1 <=? 0xBF)
  else if b0 =? 0xED then (0x80 <=? b1) && (b1 <=? 0x9F)
  else cont b1.

Definition accept4 (b0 b1 : Z) : bool :=
  if b0 =? 0xF0 then (0x90 <=? b1) && (b1 <=? 0xBF)
  else if b0 =? 0xF4 then (0x80 <=? b1) && (b1 <=? 0x8F)
  else cont b1.

Definition rune2 (b0 b1 : Z) : Z :=
  Z.lor (Z.shiftl (Z.land b0 0x1F) 6) (Z.land b1 maskx).

Definition rune3 (b0 b1 b2 : Z) : Z :=
  Z.lor (Z.lor (Z.shiftl (Z.land b0 0x0F) 12) (Z.shiftl (Z.land b1 maskx) 6))
        (Z.land b2 maskx).

Definition rune4 (b0 b1 b2 b3 : Z) : Z :=
  Z.lor (Z.lor (Z.lor (Z.shiftl (Z.land b0 0x07) 18)
                      (Z.shiftl (Z.land b1 maskx) 12))
               (Z.shiftl (Z.land b2 maskx) 6))
        (Z.land b3 maskx).

(** The conversion [[]rune(s)]: repeated [DecodeRuneInString]; a byte
    that starts no well-formed sequence is U+FFFD of width one. *)
Fixpoint Runes (s : gostring) : list Z :=
  match s with
  | [] => []
  | c0 :: t =>
      let b0 := byte_val c0 in
      if b0 <? 0x80 then b0 :: Runes t
      else
        match t with
        | [] => [RuneError]
        | c1 :: t1 =>
            let b1 := byte_val c1 in
            if (0xC2 <=? b0) && (b0 <=? 0xDF) then
              if cont b1 then rune2 b0 b1 :: Runes t1
              else RuneError :: Runes t
            else
              match t1 with
              | [] => RuneError :: Runes t
              | c2 :: t2 =>
                  let b2 := byte_val c2 in
                  if (0xE0 <=? b0) && (b0 <=? 0xEF) then
                    if accept3 b0 b1 && cont b2
                    then rune3 b0 b1 b2 :: Runes t2
                    else RuneError :: Runes t
                  else
                    match t2 with
                    | [] => RuneError :: Runes t
                    | c3 :: t3 =>
                        let b3 := byte_val c3 in
                        if (0xF0 <=? b0) && (b0 <=? 0xF4)
                           && accept4 b0 b1 && cont b2 && cont b3
                        then rune4 b0 b1 b2 b3 :: Runes t3
                        else RuneError :: Runes t
                    end
              end
        end
  end.

End utf8.

(* ------------------------------------------------------------------ *)
(** ** strings, strconv *)

Module strings.

Fixpoint HasPrefix (s prefix : gostring) : bool :=
  match prefix, s with
  | [], _ => true
  | p :: prefix', c :: s' => Byte.eqb c p && HasPrefix s' prefix'
  | _ :: _, [] => false
  end.

Definition TrimPrefix (s prefix : gostring) : gostring :=
  if HasPrefix s prefix then skipn (length prefix) s else s.

Fixpoint Contains (s substr : gostring) : bool :=
  HasPrefix s substr ||
  match s with
  | [] => false
  | _ :: s' => Contains s' substr
  end.

Definition in_cutset (cutset : gostring) (c : byte) : bool :=
  existsb (Byte.eqb c) cutset.

Fixpoint TrimLeft (s cutset : gostring) : gostring :=
  match s with
  | c :: s' => if in_cutset cutset c then TrimLeft s' cutset else s
  | [] => []
  end.

Definition TrimRight (s cutset : gostring) : gostring :=
  rev (TrimLeft (rev s) cutset).

(** [Trim] for a cutset of ASCII characters: a byte below 0x80 is a
    whole rune wherever it stands, so trimming runes is trimming bytes. *)
Definition Trim (s cutset : gostring) : gostring :=
  TrimRight (TrimLeft s cutset) cutset.

End strings.

Module strconv.

(** [Itoa] on the non-negative integers the program formats. *)
Definition Itoa (n : nat) : gostring :=
  go (NilZero.string_of_uint (Nat.to_uint n)).

End strconv.

(* ------------------------------------------------------------------ *)
(** ** Label codec: [decodeLabel] *)

(** The values [i] takes in [for i := 0; i < lb; i += 2]. *)
Definition loop_indices (lb : nat) : list nat :=
  map (fun k => 2 * k)%nat (seq 0 (Nat.div2 (lb + 1))).

(** One iteration of the loop body, at index [i], with [ret] the buffer. *)
Definition decode_iter (b : list byte) (ret : res gostring) (i : nat)
  : res gostring :=
  match ret with
  | Ok buf =>
      match nth_error b i, nth_error b (i + 1) with
      | Some lo, Some hi =>
          let u := uint16 (byte_val lo + uint16 (Z.shiftl (byte_val hi) 8)) in
          match utf16.Decode [u] with
          | r0 :: _ => Ok (buf ++ utf8.EncodeRune r0)
          | [] => Panic
          end
      | _, _ => Panic
      end
  | other => other
  end.

Definition decodeLabel (b : list byte) : res gostring :=
  if negb (Nat.eqb (Nat.modulo (length b) 2) 0) then Err ErrOddLabel
  else
    let lb := length b in
    match fold_left (decode_iter b) (loop_indices lb) (Ok []) with
    | Ok ret => Ok (strings.Trim ret [x00])
    | other => other
    end.

(* ------------------------------------------------------------------ *)
(** ** The operating system *)

(** A GPT partition entry as [gpt.Partition] exposes it: [IsEmpty()] and
    the name field.  The field is a [[72]byte] in rekby/gpt; the model
    admits any length, so that the decode-error branch can be reached. *)
Record Partition : Type := {
  IsEmpty : bool;
  PartNameUTF16 : list byte
}.

Record Table : Type := { Partitions : list Partition }.

(** What [gpt.ReadTable(fd, 512)] does on a device: it returns a table,
    returns an error, or panics (rekby/gpt checks the header's CRC over
    as many bytes as the header's size field says, and indexes past the
    sector it has read when that field is larger). *)
Inductive parsed : Type :=
| Parsed (table : Table)
| ParseError
| ParsePanic.

Record World : Type := {
  (** [ioutil.ReadFile("/proc/filesystems")] *)
  proc_filesystems : option gostring;
  (** the paths, relative to /sys/class/block, that the [k]-th
      [filepath.Walk] hands to its callback, or the error it stops on *)
  walk : nat -> option (list gostring);
  (** [os.Open(device)] fails *)
  open_fails : gostring -> bool;
  (** [fd.Seek(512, io.SeekStart)] fails *)
  seek_fails : gostring -> bool;
  (** [gpt.ReadTable(fd, 512)] *)
  read_table : gostring -> parsed;
  (** [mount.Mount(device, mountPoint, fsType, "", 0)] succeeds *)
  mount_syscall : gostring -> gostring -> gostring -> bool
}.

Inductive event : Type :=
| EvReadFile
| EvEnumerate
| EvSleep
| EvOpen (device : gostring)          (* a handle on [device] is open *)
| EvOpenFailed (device : gostring)
| EvClose (device : gostring)         (* that handle is closed *)
| EvMount (device mountPoint fsType : gostring).

(** [os.Open]: open(2) on the empty path fails with ENOENT whatever the
    file system holds. *)
Definition os_Open (w : World) (name : gostring) : bool :=
  match name with
  | [] => false
  | _ :: _ => negb (open_fails w name)
  end.

(* ------------------------------------------------------------------ *)
(** ** Device enumerator: [getBlockDevs] *)

(** [filepath.Join("/dev", rel)] for the clean, non-empty relative paths
    that [filepath.Rel] returns. *)
Definition filepath_Join_dev (rel : gostring) : gostring := go "/dev/" ++ rel.

Definition walk_callback (devnames : list gostring) (rel : gostring)
  : list gostring :=
  if gostring_eqb rel (go ".") then devnames
  else if strings.Contains rel (go "loop") then devnames
  else devnames ++ [filepath_Join_dev rel].

(** The [k]-th call of [getBlockDevs]. *)
Definition getBlockDevs (w : World) (k : nat) : res (list gostring) :=
  match walk w k with
  | Some rels => Ok (fold_left walk_callback rels [])
  | None => Err ErrWalk
  end.

(* ------------------------------------------------------------------ *)
(** ** Partition locator and path resolver: [deviceByPartLabel] *)

(** The inner loop [for n, part := range table.Partitions], entered at
    index [n] with the variables [d] and [p]; it returns their new values,
    or [None] when [decodeLabel] panics. *)
Fixpoint scan_partitions (parts : list Partition) (n : nat)
    (device label d p : gostring) : option (gostring * gostring) :=
  match parts with
  | [] => Some (d, p)
  | part :: rest =>
      if IsEmpty part then scan_partitions rest (S n) device label d p
      else
        match decodeLabel (PartNameUTF16 part) with
        | Err _ => scan_partitions rest (S n) device label d p
        | Panic => None
        | Ok l =>
            if gostring_eqb l label
            then Some (device, strconv.Itoa (n + 1))
            else scan_partitions rest (S n) device label d p
        end
  end.

(** The local variables of [deviceByPartLabel] while the first loop runs:
    [d], [p], the stack of deferred [fd.Close()] calls (latest first), and
    the events so far. *)
Record locals : Type := {
  var_d : gostring;
  var_p : gostring;
  deferred : list gostring;
  trace : list event
}.

Definition locals0 : locals :=
  {| var_d := []; var_p := []; deferred := []; trace := [] |}.

Definition nonempty (s : gostring) : bool :=
  match s with [] => false | _ :: _ => true end.

(** How an iteration of the first loop ends: with the next device, with
    [break], or with a panic unwinding the function (nothing in
    [deviceByPartLabel] recovers one). *)
Inductive control : Type := Next | Break | Unwind.

(** The body of the first loop, [for _, device := range devices], run on
    [device]. *)
Definition scan_body (w : World) (device label : gostring) (st : locals)
  : locals * control :=
  if negb (os_Open w device) then
    ({| var_d := var_d st; var_p := var_p st; deferred := deferred st;
        trace := trace st ++ [EvOpenFailed device] |}, Next)
  else
    let st1 :=
      {| var_d := var_d st; var_p := var_p st;
         deferred := device :: deferred st;
         trace := trace st ++ [EvOpen device] |} in
    if seek_fails w device then (st1, Next)
    else
      match read_table w device with
      | ParseError => (st1, Next)
      | ParsePanic => (st1, Unwind)
      | Parsed table =>
          match scan_partitions (Partitions table) 0 device label
                  (var_d st1) (var_p st1) with
          | None => (st1, Unwind)
          | Some (d, p) =>
              let st2 :=
                {| var_d := d; var_p := p; deferred := deferred st1;
                   trace := trace st1 |} in
              if nonempty d && nonempty p then (st2, Break)
              else (st2, Next)
          end
      end.

(** The first loop.  The boolean is [true] when a panic unwinds the
    function. *)
Fixpoint scan_devices (w : World) (devices : list gostring)
    (label : gostring) (st : locals) : locals * bool :=
  match devices with
  | [] => (st, false)
  | device :: rest =>
      match scan_body w device label st with
      | (st', Next) => scan_devices w rest label st'
      | (st', Break) => (st', false)
      | (st', Unwind) => (st', true)
      end
  end.

(** The second loop: the device node of partition [p] of [d]. *)
Fixpoint resolve (devices : list gostring) (d p : gostring)
  : option gostring :=
  match devices with
  | [] => None
  | device :: rest =>
      if negb (strings.HasPrefix device d) then resolve rest d p
      else
        let part := strings.TrimPrefix device d in
        if strings.Contains part p then Some device
        else resolve rest d p
  end.

(** Deferred calls run when the function returns, last deferred first. *)
Definition run_deferred (st : locals) : list event :=
  trace st ++ map EvClose (deferred st).

Definition deviceByPartLabel (w : World) (devices : list gostring)
    (label : gostring) : res gostring * list event :=
  let '(st, panicking) := scan_devices w devices label locals0 in
  if panicking then (Panic, run_deferred st)
  else if nonempty (var_d st) && nonempty (var_p st) then
    match resolve devices (var_d st) (var_p st) with
    | Some device => (Ok device, run_deferred st)
    | None =>
        (Err (ErrCannotFindPartition (var_p st) (var_d st) devices),
         run_deferred st)
    end
  else (Err (ErrNoDeviceWithLabel label), run_deferred st).

(* ------------------------------------------------------------------ *)
(** ** Retry orchestrator: [findPartition] *)

(** The loop [for { devices, err = getBlockDevs() ... }], entered with
    [timeout] left and [k] enumerations done.  [timeout] is a Go [uint];
    it is decremented only after the test [timeout == 0] failed, so it
    never wraps and the predecessor on [nat] is [timeout--]. *)
Fixpoint wait_for_devices (w : World) (timeout : nat) (k : nat)
  : res (list gostring) * list event :=
  match getBlockDevs w k with
  | Err e => (Err (ErrGetBlockDevs e), [EvEnumerate])
  | Panic => (Panic, [EvEnumerate])
  | Ok [] =>
      match timeout with
      | O => (Err ErrNoBlockDevices, [EvEnumerate])
      | S timeout' =>
          let '(r, tr) := wait_for_devices w timeout' (S k) in
          (r, EvEnumerate :: EvSleep :: tr)
      end
  | Ok devices => (Ok devices, [EvEnumerate])
  end.

Definition findPartition (w : World) (label fsType mountPoint : gostring)
    (timeout : nat) : res unit * list event :=
  match proc_filesystems w with
  | None => (Err ErrReadFile, [EvReadFile])
  | Some fs =>
      if negb (strings.Contains fs fsType)
      then (Err (ErrFilesystemUnknown fsType), [EvReadFile])
      else
        let '(r, tr) := wait_for_devices w timeout 0 in
        match r with
        | Err e => (Err e, EvReadFile :: tr)
        | Panic => (Panic, EvReadFile :: tr)
        | Ok devices =>
            let '(r2, tr2) := deviceByPartLabel w devices label in
            match r2 with
            | Err e => (Err (ErrGetDevice label e), EvReadFile :: tr ++ tr2)
            | Panic => (Panic, EvReadFile :: tr ++ tr2)
            | Ok device =>
                let tr3 := EvReadFile :: tr ++ tr2
                             ++ [EvMount device mountPoint fsType] in
                if mount_syscall w device mountPoint fsType
                then (Ok tt, tr3)
                else (Err (ErrMount device ErrMountSyscall), tr3)
            end
        end
  end.

Definition bootPartitionFSType := go "vfat".
Definition bootPartitionLabel := go "STBOOT".
Definition bootPartitionMountPoint := go "boot".
Definition dataPartitionFSType := go "ext4".
Definition dataPartitionLabel := go "STDATA".
Definition dataPartitionMountPoint := go "data".

Definition mountBootPartition (w : World) : res unit * list event :=
  findPartition w bootPartitionLabel bootPartitionFSType
    bootPartitionMountPoint 60.

Definition mountDataPartition (w : World) : res unit * list event :=
  findPartition w dataPartitionLabel dataPartitionFSType
    dataPartitionMountPoint 60.

(* ------------------------------------------------------------------ *)
(** ** Reference definitions the properties are stated with *)

(** The 16-bit code unit the loop body builds from [b[i]] and [b[i+1]]. *)
Definition code_unit (lo hi : byte) : Z :=
  uint16 (byte_val lo + uint16 (Z.shiftl (byte_val hi) 8)).

(** The input read as little-endian 16-bit code units. *)
Fixpoint code_units (b : list byte) : list Z :=
  match b with
  | lo :: hi :: rest => code_unit lo hi :: code_units rest
  | _ => []
  end.

(** A code unit decoded on its own: a surrogate, paired or not, is U+FFFD. *)
Definition lone_rune (u : Z) : Z :=
  if utf16.IsSurrogate u then utf16.replacementChar else u.

(** UTF-16 decoding of the whole sequence, surrogate pairs included,
    re-encoded as UTF-8 (before trimming). *)
Definition utf16_to_utf8 (b : list byte) : gostring :=
  flat_map utf8.EncodeRune (utf16.Decode (code_units b)).

(** Unit-by-unit decoding re-encoded as UTF-8 (before trimming). *)
Definition unit_to_utf8 (u : Z) : gostring := utf8.EncodeRune (lone_rune u).

Definition units_to_utf8 (b : list byte) : gostring :=
  flat_map unit_to_utf8 (code_units b).

Definition is_high (u : Z) : bool := (utf16.surr1 <=? u) && (u <? utf16.surr2).
Definition is_low (u : Z) : bool := (utf16.surr2 <=? u) && (u <? utf16.surr3).

(** Well-formed UTF-16: every surrogate is half of a high-low pair. *)
Fixpoint valid_utf16 (us : list Z) : bool :=
  match us with
  | [] => true
  | u :: t =>
      if negb (utf16.IsSurrogate u) then valid_utf16 t
      else
        match t with
        | u2 :: t' => is_high u && is_low u2 && valid_utf16 t'
        | [] => false
        end
  end.

(** Re-encoding a label: UTF-8 to runes to UTF-16, little-endian. *)
Definition put_uint16_le (u : Z) : list byte :=
  [to_byte u; to_byte (Z.shiftr u 8)].

Definition encodeLabel (s : gostring) : list byte :=
  flat_map put_uint16_le (utf16.Encode (utf8.Runes s)).

Definition NUL : byte := x00.

(** The file-system types /proc/filesystems lists: one per line, after
    the tab that follows the optional "nodev". *)
Fixpoint split_on (sep : byte) (s cur : gostring) : list gostring :=
  match s with
  | [] => [cur]
  | c :: s' =>
      if Byte.eqb c sep then cur :: split_on sep s' []
      else split_on sep s' (cur ++ [c])
  end.

Definition after_tab (line : gostring) : gostring :=
  last (split_on x09 line []) [].

Definition listed_filesystems (text : gostring) : list gostring :=
  map after_tab (filter nonempty (split_on x0a text [])).

(** Device inspection succeeds: open, seek and parse. *)
Definition inspect (w : World) (device : gostring) : option Table :=
  if os_Open w device then
    if seek_fails w device then None
    else
      match read_table w device with
      | Parsed table => Some table
      | ParseError | ParsePanic => None
      end
  else None.

(** A partition entry carries the label. *)
Definition entry_matches (label : gostring) (part : Partition) : bool :=
  negb (IsEmpty part) &&
  match decodeLabel (PartNameUTF16 part) with
  | Ok l => gostring_eqb l label
  | _ => false
  end.

(** No entry of [device] carries the label (or it cannot be inspected). *)
Definition no_match (w : World) (label device : gostring) : Prop :=
  forall table, inspect w device = Some table ->
    forallb (fun part => negb (entry_matches label part)) (Partitions table)
    = true.

(** [gpt.ReadTable] is reached on [device] and panics. *)
Definition panics (w : World) (device : gostring) : bool :=
  os_Open w device && negb (seek_fails w device) &&
  match read_table w device with
  | ParsePanic => true
  | _ => false
  end.

(** The scan passes over [device]: no entry of it carries the label and
    its parse does not panic. *)
Definition skipped (w : World) (label device : gostring) : Prop :=
  no_match w label device /\ panics w device = false.

(** Handles open after each event of a trace, starting from [n]. *)
Fixpoint open_handles (tr : list event) (n : nat) : list nat :=
  match tr with
  | [] => []
  | EvOpen _ :: tr' => S n :: open_handles tr' (S n)
  | EvClose _ :: tr' => Nat.pred n :: open_handles tr' (Nat.pred n)
  | _ :: tr' => n :: open_handles tr' n
  end.

Definition max_open (tr : list event) : nat :=
  fold_right Nat.max 0%nat (open_handles tr 0).

Definition opened (tr : list event) : list gostring :=
  flat_map (fun e => match e with EvOpen d => [d] | _ => [] end) tr.

Definition closed (tr : list event) : list gostring :=
  flat_map (fun e => match e with EvClose d => [d] | _ => [] end) tr.

Definition count_event (e : event -> bool) (tr : list event) : nat :=
  List.length (filter e tr).

Definition is_enumerate (e : event) : bool :=
  match e with EvEnumerate => true | _ => false end.
Definition is_sleep (e : event) : bool :=
  match e with EvSleep => true | _ => false end.
Definition is_readfile (e : event) : bool :=
  match e with EvReadFile => true | _ => false end.

(** [n] rounds of "enumerate, find nothing, sleep one second". *)
Fixpoint waiting_rounds (n : nat) : list event :=
  match n with
  | O => []
  | S n' => EvEnumerate :: EvSleep :: waiting_rounds n'
  end.

(** Every byte value, and the checks on one code unit that are decided by
    running them on all 65536 byte pairs. *)
Definition all_bytes : list byte :=
  map (fun n => to_byte (Z.of_nat n)) (seq 0 256).

Definition for_all_units (P : byte -> byte -> bool) : bool :=
  forallb (fun lo => forallb (fun hi => P lo hi) all_bytes) all_bytes.

(** [utf8.Runes] reads the encoding of a non-surrogate unit back. *)
Definition unit_reads_back (lo hi : byte) : bool :=
  let u := code_unit lo hi in
  utf16.IsSurrogate u ||
  match utf8.EncodeRune u with
  | [a] => (byte_val a <? 0x80) && (byte_val a =? u)
  | [a; b] =>
      negb (byte_val a <? 0x80)
      && ((0xC2 <=? byte_val a) && (byte_val a <=? 0xDF))
      && utf8.cont (byte_val b)
      && (utf8.rune2 (byte_val a) (byte_val b) =? u)
  | [a; b; c] =>
      negb (byte_val a <? 0x80)
      && negb ((0xC2 <=? byte_val a) && (byte_val a <=? 0xDF))
      && ((0xE0 <=? byte_val a) && (byte_val a <=? 0xEF))
      && utf8.accept3 (byte_val a) (byte_val b)
      && utf8.cont (byte_val c)
      && (utf8.rune3 (byte_val a) (byte_val b) (byte_val c) =? u)
  | _ => false
  end.

(** The encoding of a unit holds a NUL byte only for the unit 0, whose
    encoding is the one byte NUL. *)
Definition unit_nul_free (lo hi : byte) : bool :=
  let u := code_unit lo hi in
  let e := unit_to_utf8 u in
  if u =? 0 then if list_eq_dec Byte.byte_eq_dec e [NUL] then true else false
  else nonempty e && forallb (fun c => negb (Byte.eqb c NUL)) e.

Definition unit_writes_back (lo hi : byte) : bool :=
  let u := code_unit lo hi in
  (0 <=? u) && (u <? 65536) &&
  if list_eq_dec Byte.byte_eq_dec (put_uint16_le u) [lo; hi]
  then true else false.

(* ------------------------------------------------------------------ *)
(** ** Predicates of the statements and sample machines *)

(** [c] is a byte of the cutset. *)
Definition cut (cutset : gostring) (c : byte) : Prop :=
  strings.in_cutset cutset c = true.

(** [device] is [d] followed by a suffix that holds [p]. *)
Definition partition_node (d p device : gostring) : Prop :=
  exists suffix, device = d ++ suffix
                 /\ exists s1 s2, suffix = s1 ++ p ++ s2.

Definition is_handle_event (e : event) : bool :=
  match e with
  | EvOpen _ | EvOpenFailed _ | EvClose _ => true
  | _ => false
  end.

Definition attempted (tr : list event) : list gostring :=
  flat_map (fun e => match e with
                     | EvOpen d | EvOpenFailed d => [d]
                     | _ => []
                     end) tr.


(** The 72-byte name field of an ASCII label. *)
Definition name_field (label : gostring) : list byte :=
  flat_map (fun c => [c; x00]) label
  ++ repeat x00 (72 - 2 * List.length label).

Definition labelled (label : gostring) : Partition :=
  {| IsEmpty := false; PartNameUTF16 := name_field label |}.

Definition unused_entry : Partition :=
  {| IsEmpty := true; PartNameUTF16 := repeat x00 72 |}.

Definition sample_filesystems : gostring :=
  go "nodev" ++ [x09] ++ go "sysfs" ++ [x0a]
  ++ [x09] ++ go "ext4" ++ [x0a]
  ++ [x09] ++ go "vfat" ++ [x0a].

(** A machine without block devices. *)
Definition bare_world : World :=
  {| proc_filesystems := Some sample_filesystems;
     walk := fun _ => Some [go "."];
     open_fails := fun _ => true;
     seek_fails := fun _ => true;
     read_table := fun _ => ParseError;
     mount_syscall := fun _ _ _ => false |}.

(** /proc/filesystems cannot be read. *)
Definition unreadable_world : World :=
  {| proc_filesystems := None;
     walk := fun _ => Some [go "."; go "sda"];
     open_fails := fun _ => false;
     seek_fails := fun _ => false;
     read_table := fun _ => ParseError;
     mount_syscall := fun _ _ _ => true |}.

(** Devices show up at the third enumeration. *)
Definition late_world : World :=
  {| proc_filesystems := Some sample_filesystems;
     walk := fun k => if (k <? 2)%nat then Some [go "."; go "loop0"]
                      else Some [go "."; go "loop0"; go "sda"; go "sda1"];
     open_fails := fun _ => true;
     seek_fails := fun _ => true;
     read_table := fun _ => ParseError;
     mount_syscall := fun _ _ _ => false |}.

(** One disk, /dev/sda, with the data partition first and the boot
    partition second; the partition nodes hold no GPT. *)
Definition disk_world : World :=
  {| proc_filesystems := Some sample_filesystems;
     walk := fun _ => Some [go "."; go "loop0"; go "sda"; go "sda1"; go "sda2"];
     open_fails := fun _ => false;
     seek_fails := fun _ => false;
     read_table := fun d =>
       if gostring_eqb d (go "/dev/sda")
       then Parsed {| Partitions := [labelled dataPartitionLabel;
                                   labelled bootPartitionLabel;
                                   unused_entry] |}
       else ParseError;
     mount_syscall := fun _ _ _ => true |}.


(** Two disks: /dev/sda holds the data partition, /dev/sdb the boot
    partition. *)
Definition two_disk_world : World :=
  {| proc_filesystems := Some sample_filesystems;
     walk := fun _ => Some [go "."; go "sda"; go "sdb"; go "sdb1"];
     open_fails := fun _ => false;
     seek_fails := fun _ => false;
     read_table := fun d =>
       if gostring_eqb d (go "/dev/sda")
       then Parsed {| Partitions := [labelled dataPartitionLabel] |}
       else if gostring_eqb d (go "/dev/sdb")
       then Parsed {| Partitions := [labelled bootPartitionLabel] |}
       else ParseError;
     mount_syscall := fun _ _ _ => true |}.

(* ------------------------------------------------------------------ *)
(** ** Further predicates and sample machines *)

(** The relative paths [getBlockDevs] keeps: not the root itself and
    without "loop" anywhere in them. *)
Definition kept_rel (rel : gostring) : bool :=
  negb (gostring_eqb rel (go ".")) && negb (strings.Contains rel (go "loop")).

Definition is_mount (e : event) : bool :=
  match e with EvMount _ _ _ => true | _ => false end.

(** The enumerator fails at its second call. *)
Definition failing_world : World :=
  {| proc_filesystems := Some sample_filesystems;
     walk := fun k => if (k <? 1)%nat then Some [go "."] else None;
     open_fails := fun _ => true;
     seek_fails := fun _ => true;
     read_table := fun _ => ParseError;
     mount_syscall := fun _ _ _ => false |}.

(** Entry [i] of [table] is the first that carries the label. *)
Definition first_entry (label : gostring) (table : Table) (i : nat)
    (part : Partition) : Prop :=
  nth_error (Partitions table) i = Some part
  /\ entry_matches label part = true
  /\ forall j part', (j < i)%nat ->
       nth_error (Partitions table) j = Some part' ->
       entry_matches label part' = false.

(** The disk is listed and ready, its partition nodes are not yet. *)
Definition early_world : World :=
  {| proc_filesystems := Some sample_filesystems;
     walk := fun _ => Some [go "."; go "sda"];
     open_fails := fun _ => false;
     seek_fails := fun _ => false;
     read_table := fun d =>
       if gostring_eqb d (go "/dev/sda")
       then Parsed {| Partitions := [labelled bootPartitionLabel] |}
       else ParseError;
     mount_syscall := fun _ _ _ => true |}.

(** A name field holding the ASCII string [s]: each byte followed by a
    zero byte, then [k] NUL code units of padding. *)
Definition ascii_field (s : gostring) (k : nat) : list byte :=
  flat_map (fun c => [c; NUL]) s ++ repeat NUL (2 * k).

(** Code units without the zero units at their two ends. *)
Fixpoint drop_zero_units (us : list Z) : list Z :=
  match us with
  | u :: us' => if u =? 0 then drop_zero_units us' else us
  | [] => []
  end.

Definition trim_units (us : list Z) : list Z :=
  rev (drop_zero_units (rev (drop_zero_units us))).

(* ------------------------------------------------------------------ *)
(** ** Sample runs *)

Example decodeLabel_STBOOT :
  decodeLabel (name_field (go "STBOOT")) = Ok (go "STBOOT").
Proof. vm_compute. reflexivity. Qed.

Example decodeLabel_odd : decodeLabel [x53; x00; x54] = Err ErrOddLabel.
Proof. reflexivity. Qed.

Example decodeLabel_e_acute :
  decodeLabel [xe9; x00; xac; x20; x00; x00] = Ok [xc3; xa9; xe2; x82; xac].
Proof. vm_compute. reflexivity. Qed.

Example getBlockDevs_skips_loop :
  getBlockDevs disk_world 0
  = Ok [go "/dev/sda"; go "/dev/sda1"; go "/dev/sda2"].
Proof. vm_compute. reflexivity. Qed.

Example mountBootPartition_disk :
  mountBootPartition disk_world
  = (Ok tt,
     [EvReadFile; EvEnumerate; EvOpen (go "/dev/sda");
      EvClose (go "/dev/sda");
      EvMount (go "/dev/sda2") (go "boot") (go "vfat")]).
Proof. vm_compute. reflexivity. Qed.

Example mountDataPartition_disk :
  fst (mountDataPartition disk_world) = Ok tt.
Proof. vm_compute. reflexivity. Qed.

Example Itoa_12 : strconv.Itoa 12 = go "12".
Proof. reflexivity. Qed.

(* ------------------------------------------------------------------ *)
(** ** Bytes and code units *)

Lemma all_bytes_complete (b : byte) : In b all_bytes.
Proof.
  assert (H : existsb (Byte.eqb b) all_bytes = true)
    by (destruct b; vm_compute; reflexivity).
  apply existsb_exists in H. destruct H as [c [Hin Heq]].
  apply Byte.byte_dec_bl in Heq. now subst.
Qed.

Lemma for_all_units_spec (P : byte -> byte -> bool) :
  for_all_units P = true -> forall lo hi, P lo hi = true.
Proof.
  unfold for_all_units. intros H lo hi.
  rewrite forallb_forall in H.
  specialize (H lo (all_bytes_complete lo)).
  rewrite forallb_forall in H.
  exact (H hi (all_bytes_complete hi)).
Qed.

Lemma unit_reads_back_all lo hi : unit_reads_back lo hi = true.
Proof. apply for_all_units_spec. vm_compute. reflexivity. Qed.

Lemma unit_nul_free_all lo hi : unit_nul_free lo hi = true.
Proof. apply for_all_units_spec. vm_compute. reflexivity. Qed.

Lemma unit_writes_back_all lo hi : unit_writes_back lo hi = true.
Proof. apply for_all_units_spec. vm_compute. reflexivity. Qed.

Lemma Decode_single (u : Z) : utf16.Decode [u] = [lone_rune u].
Proof.
  unfold lone_rune, utf16.IsSurrogate. cbn [utf16.Decode].
  destruct (Z.ltb_spec u utf16.surr1), (Z.leb_spec utf16.surr3 u),
           (Z.leb_spec utf16.surr1 u), (Z.ltb_spec u utf16.surr3);
    cbn; try reflexivity;
    unfold utf16.surr1, utf16.surr3 in *; lia.
Qed.

Lemma code_units_app (pre rest : list byte) (j : nat) :
  List.length pre = (2 * j)%nat ->
  code_units (pre ++ rest) = code_units pre ++ code_units rest.
Proof.
  revert pre. induction j as [|j IH]; intros pre Hlen.
  - destruct pre; [reflexivity | discriminate].
  - destruct pre as [|lo [|hi pre]]; cbn in Hlen; try lia.
    cbn [app code_units]. rewrite IH by lia. reflexivity.
Qed.

Lemma code_units_length (b : list byte) (n : nat) :
  List.length b = (2 * n)%nat -> List.length (code_units b) = n.
Proof.
  revert b. induction n as [|n IH]; intros b Hlen.
  - destruct b; [reflexivity | discriminate].
  - destruct b as [|lo [|hi b]]; cbn in Hlen; try lia.
    cbn. rewrite IH by lia. reflexivity.
Qed.

(** ** The loop of [decodeLabel] *)

Lemma decode_loop_from (n : nat) :
  forall (j : nat) (pre rest : list byte) (buf : gostring),
    List.length pre = (2 * j)%nat ->
    List.length rest = (2 * n)%nat ->
    fold_left (decode_iter (pre ++ rest))
              (map (fun k => 2 * k)%nat (seq j n)) (Ok buf)
    = Ok (buf ++ units_to_utf8 rest).
Proof.
  induction n as [|n IH]; intros j pre rest buf Hpre Hrest.
  - destruct rest; [|discriminate]. cbn. now rewrite app_nil_r.
  - destruct rest as [|lo [|hi rest]]; cbn in Hrest; try lia.
    cbn [seq map fold_left].
    assert (Hlo : nth_error (pre ++ lo :: hi :: rest) (2 * j) = Some lo).
    { rewrite nth_error_app2 by lia.
      replace (2 * j - List.length pre)%nat with 0%nat by lia. reflexivity. }
    assert (Hhi : nth_error (pre ++ lo :: hi :: rest) (2 * j + 1) = Some hi).
    { rewrite nth_error_app2 by lia.
      replace (2 * j + 1 - List.length pre)%nat with 1%nat by lia.
      reflexivity. }
    unfold decode_iter at 2. rewrite Hlo, Hhi. rewrite Decode_single.
    replace (pre ++ lo :: hi :: rest) with ((pre ++ [lo; hi]) ++ rest)
      by (rewrite <- app_assoc; reflexivity).
    rewrite (IH (S j) (pre ++ [lo; hi]) rest).
    + unfold units_to_utf8. cbn [code_units flat_map].
      rewrite app_assoc. reflexivity.
    + rewrite length_app. cbn. lia.
    + lia.
Qed.

Lemma div2_double_succ (n : nat) : Nat.div2 (2 * n + 1) = n.
Proof.
  replace (2 * n + 1)%nat with (S (2 * n)) by lia.
  apply Nat.div2_succ_double.
Qed.

Lemma decode_loop_even (b : list byte) (n : nat) :
  List.length b = (2 * n)%nat ->
  fold_left (decode_iter b) (loop_indices (List.length b)) (Ok [])
  = Ok (units_to_utf8 b).
Proof.
  intros Hlen. unfold loop_indices. rewrite Hlen, div2_double_succ.
  exact (decode_loop_from n 0 [] b [] eq_refl Hlen).
Qed.

Lemma even_length_half (b : list byte) :
  Nat.even (List.length b) = true ->
  exists n, List.length b = (2 * n)%nat.
Proof.
  intros H. apply Nat.even_spec in H. destruct H as [n Hn]. now exists n.
Qed.

Lemma mod2_odd (n : nat) :
  negb (Nat.eqb (Nat.modulo n 2) 0) = Nat.odd n.
Proof.
  rewrite <- Nat.bit0_mod, Nat.bit0_odd.
  destruct (Nat.odd n); reflexivity.
Qed.

Lemma decodeLabel_eq (b : list byte) :
  decodeLabel b =
  if Nat.odd (List.length b) then Err ErrOddLabel
  else Ok (strings.Trim (units_to_utf8 b) [NUL]).
Proof.
  unfold decodeLabel. rewrite mod2_odd.
  destruct (Nat.odd (List.length b)) eqn:Hodd; [reflexivity|].
  assert (Heven : Nat.even (List.length b) = true).
  { rewrite <- Nat.negb_odd, Hodd. reflexivity. }
  destruct (even_length_half b Heven) as [n Hn].
  rewrite (decode_loop_even b n Hn). reflexivity.
Qed.

(** ** [strings.Trim] *)

Section Trim.
Variable cutset : gostring.

Lemma TrimLeft_split (s : gostring) :
  exists l, s = l ++ strings.TrimLeft s cutset /\ Forall (cut cutset) l.
Proof.
  induction s as [|c s IH].
  - exists []. split; [reflexivity | constructor].
  - cbn [strings.TrimLeft].
    destruct (strings.in_cutset cutset c) eqn:Hc.
    + destruct IH as [l [Hs Hl]]. exists (c :: l). split.
      * cbn. now rewrite <- Hs.
      * constructor; assumption.
    + exists []. split; [reflexivity | constructor].
Qed.

Lemma TrimLeft_head (s : gostring) (x : byte) (t : gostring) :
  strings.TrimLeft s cutset = x :: t -> strings.in_cutset cutset x = false.
Proof.
  induction s as [|c s IH]; cbn [strings.TrimLeft]; [discriminate|].
  destruct (strings.in_cutset cutset c) eqn:Hc; [exact IH|].
  intros H. injection H as -> _. exact Hc.
Qed.

Lemma TrimLeft_drop (l s : gostring) :
  Forall (cut cutset) l ->
  strings.TrimLeft (l ++ s) cutset = strings.TrimLeft s cutset.
Proof.
  induction 1 as [|c l Hc _ IH]; [reflexivity|].
  cbn [app strings.TrimLeft]. unfold cut in Hc. now rewrite Hc.
Qed.

Lemma TrimLeft_keep (x : byte) (t : gostring) :
  strings.in_cutset cutset x = false ->
  strings.TrimLeft (x :: t) cutset = x :: t.
Proof. intros H. cbn [strings.TrimLeft]. now rewrite H. Qed.

Lemma TrimRight_split (s : gostring) :
  exists r, s = strings.TrimRight s cutset ++ r /\ Forall (cut cutset) r.
Proof.
  unfold strings.TrimRight.
  destruct (TrimLeft_split (rev s)) as [l [Hs Hl]].
  exists (rev l). split.
  - rewrite <- rev_app_distr, <- Hs. now rewrite rev_involutive.
  - now apply Forall_rev.
Qed.

Lemma Trim_split (s : gostring) :
  exists l r, s = l ++ strings.Trim s cutset ++ r
              /\ Forall (cut cutset) l /\ Forall (cut cutset) r.
Proof.
  unfold strings.Trim.
  destruct (TrimLeft_split s) as [l [Hs Hl]].
  destruct (TrimRight_split (strings.TrimLeft s cutset)) as [r [Hr Hr']].
  exists l, r. repeat split; try assumption.
  rewrite <- Hr. exact Hs.
Qed.

Lemma Trim_head (s : gostring) (x : byte) (t : gostring) :
  strings.Trim s cutset = x :: t -> strings.in_cutset cutset x = false.
Proof.
  unfold strings.Trim. intros H.
  destruct (TrimRight_split (strings.TrimLeft s cutset)) as [r [Hr _]].
  rewrite H in Hr. cbn in Hr.
  exact (TrimLeft_head s x (t ++ r) Hr).
Qed.

Lemma Trim_last (s : gostring) (x : byte) (t : gostring) :
  strings.Trim s cutset = t ++ [x] -> strings.in_cutset cutset x = false.
Proof.
  unfold strings.Trim, strings.TrimRight. intros H.
  apply (f_equal (@rev byte)) in H.
  rewrite rev_involutive, rev_app_distr in H. cbn in H.
  exact (TrimLeft_head _ x (rev t) H).
Qed.

(** A string that neither starts nor ends in the cutset comes back from
    [Trim] without the padding added behind it. *)
Lemma Trim_padding (s r : gostring) :
  (forall x t, s = x :: t -> strings.in_cutset cutset x = false) ->
  (forall x t, s = t ++ [x] -> strings.in_cutset cutset x = false) ->
  Forall (cut cutset) r ->
  strings.Trim (s ++ r) cutset = s.
Proof.
  intros Hhd Hlast Hr. unfold strings.Trim.
  destruct s as [|x t].
  - cbn [app]. replace r with (r ++ []) by apply app_nil_r.
    rewrite (TrimLeft_drop r [] Hr). reflexivity.
  - cbn [app]. rewrite TrimLeft_keep by (eapply Hhd; reflexivity).
    unfold strings.TrimRight.
    change (x :: t ++ r) with ((x :: t) ++ r).
    rewrite rev_app_distr, TrimLeft_drop by now apply Forall_rev.
    destruct (exists_last (l := x :: t)) as [t' [y Hy]]; [discriminate|].
    rewrite Hy, rev_app_distr. cbn [rev app].
    rewrite TrimLeft_keep by (eapply Hlast; exact Hy).
    change (y :: rev t') with (rev [y] ++ rev t').
    rewrite <- rev_app_distr. apply rev_involutive.
Qed.

End Trim.

Lemma in_cutset_NUL (c : byte) :
  strings.in_cutset [NUL] c = true <-> c = NUL.
Proof.
  unfold strings.in_cutset. cbn. rewrite orb_false_r. split.
  - apply Byte.byte_dec_bl.
  - apply Byte.byte_dec_lb.
Qed.

Lemma Forall_cut_NUL (l : gostring) :
  Forall (cut [NUL]) l <-> Forall (eq NUL) l.
Proof.
  split; intros H; eapply Forall_impl; try exact H; cbn; intros c Hc.
  - symmetry. now apply in_cutset_NUL.
  - apply in_cutset_NUL. now symmetry.
Qed.

(** ** Code units of an input *)

(** Induction on a list two elements at a time. *)
Lemma list_pair_ind (A : Type) (P : list A -> Prop) :
  P [] -> (forall x, P [x]) -> (forall x y l, P l -> P (x :: y :: l)) ->
  forall l, P l.
Proof.
  intros H0 H1 H2. fix IH 1.
  intros [|x [|y l]]; [exact H0 | apply H1 | apply H2, IH].
Qed.

Lemma code_units_In (b : list byte) (u : Z) :
  In u (code_units b) -> exists lo hi, u = code_unit lo hi.
Proof.
  induction b as [|x|lo hi b IH] using list_pair_ind;
    cbn [code_units]; try contradiction.
  intros [Hu | Hin]; [now exists lo, hi | now apply IH].
Qed.

Lemma code_units_repeat_NUL (k : nat) :
  code_units (repeat NUL (2 * k)) = repeat 0 k.
Proof.
  induction k as [|k IH]; [reflexivity|].
  replace (2 * S k)%nat with (S (S (2 * k))) by lia.
  cbn [repeat code_units]. now rewrite IH.
Qed.

Lemma units_to_utf8_app (pre rest : list byte) :
  Nat.even (List.length pre) = true ->
  units_to_utf8 (pre ++ rest) = units_to_utf8 pre ++ units_to_utf8 rest.
Proof.
  intros H. destruct (even_length_half pre H) as [j Hj].
  unfold units_to_utf8. rewrite (code_units_app pre rest j Hj).
  apply flat_map_app.
Qed.

Lemma units_to_utf8_padding (k : nat) :
  units_to_utf8 (repeat NUL (2 * k)) = repeat NUL k.
Proof.
  unfold units_to_utf8. rewrite code_units_repeat_NUL.
  induction k as [|k IH]; [reflexivity|]. cbn [repeat flat_map].
  now rewrite IH.
Qed.

(** ** One code unit through UTF-8 *)

Lemma code_unit_range (lo hi : byte) : 0 <= code_unit lo hi < 65536.
Proof.
  pose proof (unit_writes_back_all lo hi) as H. unfold unit_writes_back in H.
  apply andb_prop in H. destruct H as [H _].
  apply andb_prop in H. destruct H as [H1 H2]. lia.
Qed.

Lemma put_code_unit (lo hi : byte) : put_uint16_le (code_unit lo hi) = [lo; hi].
Proof.
  pose proof (unit_writes_back_all lo hi) as H. unfold unit_writes_back in H.
  apply andb_prop in H. destruct H as [_ H].
  destruct (list_eq_dec _ _ _); [assumption | discriminate].
Qed.

Lemma unit_to_utf8_zero : unit_to_utf8 0 = [NUL].
Proof. reflexivity. Qed.

Lemma unit_to_utf8_nonzero (u : Z) :
  (exists lo hi, u = code_unit lo hi) -> u <> 0 ->
  unit_to_utf8 u <> [] /\ Forall (fun c => c <> NUL) (unit_to_utf8 u).
Proof.
  intros [lo [hi ->]] Hnz.
  pose proof (unit_nul_free_all lo hi) as H. unfold unit_nul_free in H.
  cbv zeta in H. destruct (Z.eqb_spec (code_unit lo hi) 0); [contradiction|].
  apply andb_prop in H. destruct H as [Hne Hall]. split.
  - destruct (unit_to_utf8 (code_unit lo hi)); [discriminate | discriminate].
  - apply Forall_forall. intros c Hc. rewrite forallb_forall in Hall.
    specialize (Hall c Hc). intros ->. discriminate.
Qed.

Lemma lone_rune_id (u : Z) : utf16.IsSurrogate u = false -> lone_rune u = u.
Proof. unfold lone_rune. now intros ->. Qed.

Lemma Runes_unit (lo hi : byte) (rest : gostring) :
  utf16.IsSurrogate (code_unit lo hi) = false ->
  utf8.Runes (unit_to_utf8 (code_unit lo hi) ++ rest)
  = code_unit lo hi :: utf8.Runes rest.
Proof.
  intros Hs. unfold unit_to_utf8. rewrite (lone_rune_id _ Hs).
  pose proof (unit_reads_back_all lo hi) as H. unfold unit_reads_back in H.
  cbv zeta in H. rewrite Hs in H. cbn [orb] in H.
  destruct (utf8.EncodeRune (code_unit lo hi)) as [|a [|b [|c [|e l]]]];
    try discriminate.
  - apply andb_prop in H. destruct H as [H1 H2].
    cbn [app utf8.Runes]. rewrite H1. apply Z.eqb_eq in H2. now rewrite H2.
  - rewrite !andb_true_iff in H.
    destruct H as [[[Hascii [Hlo Hhi]] Hcont] Heq].
    apply negb_true_iff in Hascii. cbn [app utf8.Runes]. cbv zeta.
    rewrite Hascii, Hlo, Hhi, Hcont. apply Z.eqb_eq in Heq. now rewrite Heq.
  - rewrite !andb_true_iff in H.
    destruct H as [[[[[Hascii Hlead2] [Hlo Hhi]] Hacc] Hcont] Heq].
    apply negb_true_iff in Hascii, Hlead2. cbn [app utf8.Runes]. cbv zeta.
    rewrite Hascii, Hlead2, Hlo, Hhi, Hacc, Hcont. cbn [andb].
    apply Z.eqb_eq in Heq. now rewrite Heq.
Qed.

Lemma no_surrogates_units (b : list byte) :
  forallb (fun u => negb (utf16.IsSurrogate u)) (code_units b) = true ->
  utf8.Runes (units_to_utf8 b) = code_units b
  /\ utf16.Decode (code_units b) = code_units b
  /\ utf16.Encode (code_units b) = code_units b
  /\ units_to_utf8 b = utf16_to_utf8 b.
Proof.
  unfold units_to_utf8, utf16_to_utf8.
  induction b as [|x|lo hi b IH] using list_pair_ind;
    cbn [code_units]; try (intros _; repeat split; reflexivity).
  cbn [forallb]. intros H. apply andb_prop in H. destruct H as [Hu Hb].
  apply negb_true_iff in Hu. destruct (IH Hb) as [IH1 [IH2 [IH3 IH4]]].
  pose proof (code_unit_range lo hi) as Hr.
  assert (Hcmp : ((code_unit lo hi <? utf16.surr1)
                  || (utf16.surr3 <=? code_unit lo hi)) = true).
  { unfold utf16.IsSurrogate in Hu.
    destruct (Z.leb_spec utf16.surr1 (code_unit lo hi)),
             (Z.ltb_spec (code_unit lo hi) utf16.surr3),
             (Z.ltb_spec (code_unit lo hi) utf16.surr1),
             (Z.leb_spec utf16.surr3 (code_unit lo hi));
      try reflexivity; try discriminate; lia. }
  repeat split.
  - cbn [flat_map]. rewrite Runes_unit by exact Hu. now rewrite IH1.
  - cbn [utf16.Decode]. rewrite Hcmp. now rewrite IH2.
  - unfold utf16.Encode in *. cbn [flat_map]. rewrite IH3.
    assert (Hin : (((0 <=? code_unit lo hi)
                      && (code_unit lo hi <? utf16.surr1))
                   || ((utf16.surr3 <=? code_unit lo hi)
                      && (code_unit lo hi <? utf16.surrSelf))) = true).
    { unfold utf16.surr1, utf16.surr3, utf16.surrSelf in *.
      apply orb_true_iff in Hcmp. apply orb_true_iff.
      destruct Hcmp as [Hc | Hc]; [left | right]; rewrite Hc.
      - rewrite andb_true_r. apply Z.leb_le. lia.
      - apply Z.ltb_lt. lia. }
    rewrite Hin. reflexivity.
  - cbn [utf16.Decode]. rewrite Hcmp. cbn [flat_map]. rewrite IH2 in IH4.
    rewrite IH2, <- IH4. unfold unit_to_utf8 at 1.
    now rewrite (lone_rune_id _ Hu).
Qed.

Lemma put_code_units (b : list byte) :
  Nat.even (List.length b) = true ->
  flat_map put_uint16_le (code_units b) = b.
Proof.
  induction b as [|x|lo hi b IH] using list_pair_ind; intros H.
  - reflexivity.
  - discriminate.
  - cbn [code_units flat_map]. rewrite put_code_unit.
    cbn [app]. rewrite IH; [reflexivity|]. exact H.
Qed.

Lemma units_to_utf8_head (b : list byte) (x : byte) (t : gostring) :
  hd_error (code_units b) <> Some 0 ->
  units_to_utf8 b = x :: t -> x <> NUL.
Proof.
  unfold units_to_utf8. intros Hhd Hx.
  destruct (code_units b) as [|u us] eqn:Hu; [discriminate|].
  assert (Hnz : u <> 0) by (intros ->; now apply Hhd).
  destruct (unit_to_utf8_nonzero u) as [Hne Hall]; [|exact Hnz|].
  { apply (code_units_In b). rewrite Hu. now left. }
  cbn [flat_map] in Hx.
  destruct (unit_to_utf8 u) as [|y e]; [contradiction|].
  injection Hx as -> _. now inversion Hall.
Qed.

Lemma units_to_utf8_last (b : list byte) (x : byte) (t : gostring) :
  hd_error (rev (code_units b)) <> Some 0 ->
  units_to_utf8 b = t ++ [x] -> x <> NUL.
Proof.
  unfold units_to_utf8. intros Hhd Hx.
  destruct (rev (code_units b)) as [|u us] eqn:Hu.
  - apply (f_equal (@rev Z)) in Hu. rewrite rev_involutive in Hu.
    rewrite Hu in Hx. destruct t; discriminate.
  - assert (Hnz : u <> 0) by (intros ->; now apply Hhd).
    apply (f_equal (@rev Z)) in Hu. rewrite rev_involutive in Hu.
    cbn [rev] in Hu.
    destruct (unit_to_utf8_nonzero u) as [Hne Hall]; [|exact Hnz|].
    { apply (code_units_In b). rewrite Hu. apply in_or_app. right. now left. }
    rewrite Hu, flat_map_app in Hx. cbn [flat_map] in Hx.
    rewrite app_nil_r in Hx.
    destruct (exists_last Hne) as [e [y Hy]]. rewrite Hy in Hx, Hall.
    rewrite app_assoc in Hx. apply app_inj_tail in Hx. destruct Hx as [_ <-].
    apply Forall_app in Hall. destruct Hall as [_ Hall]. now inversion Hall.
Qed.

Lemma in_cutset_NUL_false (c : byte) :
  c <> NUL -> strings.in_cutset [NUL] c = false.
Proof.
  intros H. destruct (strings.in_cutset [NUL] c) eqn:E; [|reflexivity].
  apply in_cutset_NUL in E. contradiction.
Qed.

Lemma Forall_repeat_NUL (k : nat) : Forall (eq NUL) (repeat NUL k).
Proof. induction k; cbn; constructor; auto. Qed.

(* ------------------------------------------------------------------ *)
(** ** Label codec: the properties *)

(** C8. [decodeLabel] fails exactly when its input has odd length, and
    then with the odd-length error; on every even-length input it returns
    a string (the trimmed unit-by-unit transcoding), never an error and
    never a panic. *)
Theorem decodeLabel_fails_iff_odd (b : list byte) :
  (decodeLabel b = Err ErrOddLabel <-> Nat.odd (List.length b) = true)
  /\ (Nat.odd (List.length b) = false <-> exists s, decodeLabel b = Ok s)
  /\ decodeLabel b <> Panic
  /\ (forall e, decodeLabel b = Err e -> e = ErrOddLabel).
Proof.
  rewrite decodeLabel_eq.
  destruct (Nat.odd (List.length b)); repeat split; intros;
    solve [ reflexivity | discriminate | congruence
          | eexists; reflexivity
          | match goal with
            | H : exists _, _ |- _ => destruct H; discriminate
            end ].
Qed.

Lemma decodeLabel_fails_iff_odd_witness :
  decodeLabel [x53; x00; x54] = Err ErrOddLabel
  /\ exists s, decodeLabel [x53; x00; x54; x00] = Ok s.
Proof.
  split.
  - apply (proj1 (decodeLabel_fails_iff_odd [x53; x00; x54])). reflexivity.
  - apply (proj1 (proj2 (decodeLabel_fails_iff_odd [x53; x00; x54; x00]))).
    reflexivity.
Defined.

(** C10. The string [decodeLabel] returns is the text its loop has
    gathered with the NULs of both ends removed: the text is
    [l ++ s ++ r] with [l] and [r] all NUL, and [s] neither starts nor
    ends with a NUL; what lies between, interior NULs included, is kept
    as it is. *)
Theorem decodeLabel_trims_both_ends (b : list byte) (s : gostring) :
  decodeLabel b = Ok s ->
  (exists l r,
      fold_left (decode_iter b) (loop_indices (List.length b)) (Ok [])
      = Ok (l ++ s ++ r)
      /\ Forall (eq NUL) l /\ Forall (eq NUL) r)
  /\ (forall t, s <> NUL :: t)
  /\ (forall t, s <> t ++ [NUL]).
Proof.
  rewrite decodeLabel_eq.
  destruct (Nat.odd (List.length b)) eqn:Hodd; [discriminate|].
  assert (Heven : Nat.even (List.length b) = true)
    by (rewrite <- Nat.negb_odd, Hodd; reflexivity).
  destruct (even_length_half b Heven) as [n Hn].
  rewrite (decode_loop_even b n Hn).
  intros H. injection H as <-. repeat split.
  - destruct (Trim_split [NUL] (units_to_utf8 b)) as [l [r [Hs [Hl Hr]]]].
    exists l, r. repeat split; [now rewrite <- Hs | |];
      now apply Forall_cut_NUL.
  - intros t Ht. apply Trim_head in Ht.
    assert (strings.in_cutset [NUL] NUL = true) by reflexivity. congruence.
  - intros t Ht. apply Trim_last in Ht.
    assert (strings.in_cutset [NUL] NUL = true) by reflexivity. congruence.
Qed.

Lemma decodeLabel_trims_both_ends_witness :
  decodeLabel [x00; x00; x41; x00; x00; x00; x42; x00; x00; x00]
  = Ok [x41; x00; x42]
  /\ (forall t, [x41; x00; x42] <> NUL :: t).
Proof.
  assert (H : decodeLabel [x00; x00; x41; x00; x00; x00; x42; x00; x00; x00]
              = Ok [x41; x00; x42]) by (vm_compute; reflexivity).
  split; [exact H|].
  exact (proj1 (proj2 (decodeLabel_trims_both_ends _ _ H))).
Defined.

(** C1, as the code has it.  [decodeLabel] reads little-endian 16-bit
    code units and decodes each one on its own: a unit that is no
    surrogate is its code point, a surrogate, one half of a valid pair
    included, is U+FFFD; the runes are re-encoded as UTF-8 and trimmed.
    So an input without surrogate units is decoded as UTF-16 prescribes,
    and a valid surrogate pair comes out as two replacement characters. *)
Theorem decodeLabel_decodes_units_alone (b : list byte) :
  Nat.even (List.length b) = true ->
  decodeLabel b = Ok (strings.Trim (units_to_utf8 b) [NUL])
  /\ (forallb (fun u => negb (utf16.IsSurrogate u)) (code_units b) = true ->
      units_to_utf8 b = utf16_to_utf8 b)
  /\ (forall pre hi lo post,
        code_units b = pre ++ hi :: lo :: post ->
        is_high hi = true -> is_low lo = true ->
        units_to_utf8 b =
          flat_map unit_to_utf8 pre
          ++ utf8.EncodeRune utf16.replacementChar
          ++ utf8.EncodeRune utf16.replacementChar
          ++ flat_map unit_to_utf8 post).
Proof.
  intros Heven. repeat split.
  - rewrite decodeLabel_eq, <- Nat.negb_even, Heven. reflexivity.
  - intros H. now apply no_surrogates_units.
  - intros pre hi lo post Hb Hhi Hlo. unfold units_to_utf8.
    rewrite Hb, flat_map_app. cbn [flat_map]. unfold unit_to_utf8 at 2 3.
    assert (Hs1 : utf16.IsSurrogate hi = true).
    { unfold is_high, utf16.IsSurrogate, utf16.surr1, utf16.surr2,
        utf16.surr3 in *.
      apply andb_prop in Hhi. destruct Hhi as [H1 H2]. rewrite H1.
      apply Z.ltb_lt in H2. apply Z.ltb_lt. lia. }
    assert (Hs2 : utf16.IsSurrogate lo = true).
    { unfold is_low, utf16.IsSurrogate, utf16.surr1, utf16.surr2,
        utf16.surr3 in *.
      apply andb_prop in Hlo. destruct Hlo as [H1 H2]. rewrite H2.
      apply Z.leb_le in H1. rewrite andb_true_r. apply Z.leb_le. lia. }
    unfold lone_rune. rewrite Hs1, Hs2. now rewrite <- ?app_assoc.
Qed.

Lemma decodeLabel_decodes_units_alone_witness :
  decodeLabel [x3d; xd8; x00; xde] = Ok [xef; xbf; xbd; xef; xbf; xbd]
  /\ units_to_utf8 [x53; x00; x54; x00] = utf16_to_utf8 [x53; x00; x54; x00]
  /\ units_to_utf8 [x53; x00; x3d; xd8; x00; xde]
     = flat_map unit_to_utf8 [0x53]
       ++ utf8.EncodeRune utf16.replacementChar
       ++ utf8.EncodeRune utf16.replacementChar
       ++ flat_map unit_to_utf8 [].
Proof.
  split; [|split].
  3:{ apply (proj2 (proj2 (decodeLabel_decodes_units_alone
                             [x53; x00; x3d; xd8; x00; xde] eq_refl))
               [0x53] 0xd83d 0xde00 []); reflexivity. }
  - rewrite (proj1 (decodeLabel_decodes_units_alone [x3d; xd8; x00; xde]
                      eq_refl)).
    vm_compute. reflexivity.
  - apply (proj1 (proj2 (decodeLabel_decodes_units_alone
                           [x53; x00; x54; x00] eq_refl))).
    vm_compute. reflexivity.
Defined.

(** C1, as the spec words it, fails: U+1F600 is the pair D83D DE00, and
    its UTF-8 encoding F0 9F 98 80 is nowhere in the output. *)
Lemma surrogate_pair_counterexample :
  ~ (forall (b : list byte) pre hi lo post,
       Nat.even (List.length b) = true ->
       code_units b = pre ++ hi :: lo :: post ->
       is_high hi = true -> is_low lo = true ->
       exists s, decodeLabel b = Ok s
                 /\ strings.Contains s
                      (utf8.EncodeRune (utf16.DecodeRune hi lo)) = true).
Proof.
  intros H.
  destruct (H [x3d; xd8; x00; xde] [] 0xd83d 0xde00 [] eq_refl eq_refl
              eq_refl eq_refl) as [s [Hs Hc]].
  vm_compute in Hs. injection Hs as <-. vm_compute in Hc. discriminate.
Qed.

(** C2, as the code has it.  An even-length prefix whose code units hold
    no surrogate and which neither starts nor ends with a NUL unit,
    followed by NUL padding, decodes to a string whose UTF-16LE
    re-encoding is the prefix; padding it again gives the input. *)
Theorem decodeLabel_round_trip (prefix : list byte) (k : nat) :
  Nat.even (List.length prefix) = true ->
  forallb (fun u => negb (utf16.IsSurrogate u)) (code_units prefix) = true ->
  hd_error (code_units prefix) <> Some 0 ->
  hd_error (rev (code_units prefix)) <> Some 0 ->
  exists s,
    decodeLabel (prefix ++ repeat NUL (2 * k)) = Ok s
    /\ encodeLabel s = prefix
    /\ encodeLabel s ++ repeat NUL (2 * k) = prefix ++ repeat NUL (2 * k).
Proof.
  intros Heven Hsurr Hhd Hlast.
  exists (units_to_utf8 prefix).
  assert (Henc : encodeLabel (units_to_utf8 prefix) = prefix).
  { unfold encodeLabel.
    destruct (no_surrogates_units prefix Hsurr) as [H1 [_ [H3 _]]].
    rewrite H1, H3. now apply put_code_units. }
  repeat split; [| exact Henc | now rewrite Henc].
  rewrite decodeLabel_eq.
  assert (Hlen : Nat.odd (List.length (prefix ++ repeat NUL (2 * k))) = false).
  { rewrite length_app, repeat_length, Nat.odd_add, <- !Nat.negb_even, Heven.
    rewrite Nat.even_mul. reflexivity. }
  rewrite Hlen, units_to_utf8_app, units_to_utf8_padding by exact Heven.
  f_equal. apply Trim_padding.
  - intros x t Hx. apply in_cutset_NUL_false.
    exact (units_to_utf8_head prefix x t Hhd Hx).
  - intros x t Hx. apply in_cutset_NUL_false.
    exact (units_to_utf8_last prefix x t Hlast Hx).
  - apply Forall_cut_NUL, Forall_repeat_NUL.
Qed.

Lemma decodeLabel_round_trip_witness :
  exists s,
    decodeLabel ([x53; x00; xe9; x00; x00; x00; xac; x20] ++ repeat NUL (2 * 3))
    = Ok s
    /\ encodeLabel s = [x53; x00; xe9; x00; x00; x00; xac; x20]
    /\ encodeLabel s ++ repeat NUL (2 * 3)
       = [x53; x00; xe9; x00; x00; x00; xac; x20] ++ repeat NUL (2 * 3).
Proof.
  apply (decodeLabel_round_trip [x53; x00; xe9; x00; x00; x00; xac; x20] 3).
  - reflexivity.
  - vm_compute. reflexivity.
  - vm_compute. discriminate.
  - vm_compute. discriminate.
Defined.

(** C2, as the spec words it, fails on a valid surrogate pair: its two
    units come back as U+FFFD U+FFFD. *)
Lemma round_trip_counterexample :
  ~ (forall (prefix : list byte) (k : nat),
       Nat.even (List.length prefix) = true ->
       valid_utf16 (code_units prefix) = true ->
       Forall (fun u => u <> 0) (code_units prefix) ->
       exists s, decodeLabel (prefix ++ repeat NUL (2 * k)) = Ok s
                 /\ encodeLabel s = prefix).
Proof.
  intros H.
  destruct (H [x3d; xd8; x00; xde] 2%nat eq_refl eq_refl) as [s [Hs He]].
  - repeat constructor; vm_compute; discriminate.
  - vm_compute in Hs. injection Hs as <-. vm_compute in He. discriminate.
Qed.

(* ------------------------------------------------------------------ *)
(** ** Prefixes and substrings *)

Lemma gostring_eqb_eq (a b : gostring) : gostring_eqb a b = true <-> a = b.
Proof.
  unfold gostring_eqb. destruct (list_eq_dec Byte.byte_eq_dec a b);
    split; congruence.
Qed.

Lemma HasPrefix_spec (s prefix : gostring) :
  strings.HasPrefix s prefix = true <-> exists rest, s = prefix ++ rest.
Proof.
  revert s. induction prefix as [|p prefix IH]; intros s.
  - destruct s; cbn; split; eauto.
  - destruct s as [|c s]; cbn [strings.HasPrefix].
    + split; [discriminate | intros [rest H]; discriminate].
    + rewrite andb_true_iff, IH. split.
      * intros [Hc [rest ->]]. apply Byte.byte_dec_bl in Hc. subst.
        now exists rest.
      * intros [rest H]. injection H as -> ->. split.
        -- now apply Byte.byte_dec_lb.
        -- now exists rest.
Qed.

Lemma TrimPrefix_app (prefix rest : gostring) :
  strings.TrimPrefix (prefix ++ rest) prefix = rest.
Proof.
  unfold strings.TrimPrefix.
  assert (H : strings.HasPrefix (prefix ++ rest) prefix = true)
    by (apply HasPrefix_spec; now exists rest).
  rewrite H. rewrite skipn_app, skipn_all, Nat.sub_diag. reflexivity.
Qed.

Lemma Contains_spec (s substr : gostring) :
  strings.Contains s substr = true <->
  exists pre post, s = pre ++ substr ++ post.
Proof.
  induction s as [|c s IH].
  - cbn [strings.Contains]. rewrite orb_false_r, HasPrefix_spec. split.
    + intros [rest H]. now exists [], rest.
    + intros [pre [post H]]. destruct pre; [now exists post|discriminate].
  - cbn [strings.Contains]. rewrite orb_true_iff, HasPrefix_spec, IH. split.
    + intros [[rest H] | [pre [post H]]].
      * now exists [], rest.
      * exists (c :: pre), post. cbn. now rewrite H.
    + intros [pre [post H]]. destruct pre as [|x pre].
      * left. now exists post.
      * right. injection H as _ H. now exists pre, post.
Qed.

(* ------------------------------------------------------------------ *)
(** ** Partition path resolver *)

Lemma Itoa_nonempty (n : nat) : nonempty (strconv.Itoa n) = true.
Proof.
  unfold strconv.Itoa, go, NilZero.string_of_uint.
  destruct (Nat.to_uint n); reflexivity.
Qed.

Lemma resolve_accepts (d p device : gostring) :
  (strings.HasPrefix device d
   && strings.Contains (strings.TrimPrefix device d) p) = true
  <-> partition_node d p device.
Proof.
  unfold partition_node. rewrite andb_true_iff, HasPrefix_spec. split.
  - intros [[rest ->] Hc]. rewrite TrimPrefix_app in Hc. exists rest.
    split; [reflexivity|]. now apply Contains_spec.
  - intros [suffix [-> Hc]]. split; [now exists suffix|].
    rewrite TrimPrefix_app. now apply Contains_spec.
Qed.

Lemma resolve_cons (device : gostring) (rest : list gostring) (d p : gostring) :
  resolve (device :: rest) d p =
  if strings.HasPrefix device d
     && strings.Contains (strings.TrimPrefix device d) p
  then Some device else resolve rest d p.
Proof.
  cbn [resolve]. destruct (strings.HasPrefix device d); cbn; [|reflexivity].
  destruct (strings.Contains _ p); reflexivity.
Qed.

Lemma resolve_some (devices : list gostring) (d p device : gostring) :
  resolve devices d p = Some device <->
  exists pre post, devices = pre ++ device :: post
                   /\ partition_node d p device
                   /\ Forall (fun x => ~ partition_node d p x) pre.
Proof.
  induction devices as [|x devices IH].
  - cbn. split; [discriminate|]. intros [pre [post [H _]]].
    destruct pre; discriminate.
  - rewrite resolve_cons.
    destruct (strings.HasPrefix x d
              && strings.Contains (strings.TrimPrefix x d) p) eqn:Hx.
    + apply resolve_accepts in Hx. split.
      * intros H. injection H as ->. exists [], devices. auto.
      * intros [pre [post [H [Hd Hpre]]]]. destruct pre as [|y pre].
        -- injection H as -> _. reflexivity.
        -- injection H as -> _. inversion Hpre. contradiction.
    + assert (Hn : ~ partition_node d p x).
      { intros H. apply resolve_accepts in H. congruence. }
      rewrite IH. split.
      * intros [pre [post [-> [Hd Hpre]]]]. exists (x :: pre), post. auto.
      * intros [pre [post [H [Hd Hpre]]]]. destruct pre as [|y pre].
        -- injection H as -> _. contradiction.
        -- injection H as -> ->. inversion Hpre. now exists pre, post.
Qed.

Lemma resolve_none (devices : list gostring) (d p : gostring) :
  resolve devices d p = None <->
  Forall (fun x => ~ partition_node d p x) devices.
Proof.
  induction devices as [|x devices IH].
  - cbn. split; auto.
  - rewrite resolve_cons.
    destruct (strings.HasPrefix x d
              && strings.Contains (strings.TrimPrefix x d) p) eqn:Hx.
    + apply resolve_accepts in Hx. split; [discriminate|].
      intros H. inversion H. contradiction.
    + assert (Hn : ~ partition_node d p x).
      { intros H. apply resolve_accepts in H. congruence. }
      rewrite IH. split.
      * intros H. now constructor.
      * intros H. now inversion H.
Qed.

(** C5. The resolver returns the first entry of the device list that
    starts with the base device path and whose remaining suffix holds the
    decimal string of the partition index; on the devices /dev/sda,
    /dev/sda1, /dev/sda2 with base /dev/sda and index 2 that is
    /dev/sda2; and when no entry qualifies, [deviceByPartLabel] fails
    with the cannot-find-partition error. *)
Theorem resolve_first_partition_node
    (w : World) (devices : list gostring) (d label : gostring) (index : nat) :
  (forall device,
      resolve devices d (strconv.Itoa index) = Some device <->
      exists pre post,
        devices = pre ++ device :: post
        /\ partition_node d (strconv.Itoa index) device
        /\ Forall (fun x => ~ partition_node d (strconv.Itoa index) x) pre)
  /\ (resolve devices d (strconv.Itoa index) = None <->
      Forall (fun x => ~ partition_node d (strconv.Itoa index) x) devices)
  /\ resolve [go "/dev/sda"; go "/dev/sda1"; go "/dev/sda2"]
             (go "/dev/sda") (strconv.Itoa 2) = Some (go "/dev/sda2")
  /\ (forall st,
        scan_devices w devices label locals0 = (st, false) ->
        var_d st = d -> var_p st = strconv.Itoa index ->
        nonempty d = true ->
        fst (deviceByPartLabel w devices label) =
        match resolve devices d (strconv.Itoa index) with
        | Some device => Ok device
        | None =>
            Err (ErrCannotFindPartition (strconv.Itoa index) d devices)
        end).
Proof.
  repeat split.
  - apply resolve_some.
  - apply resolve_some.
  - apply resolve_none.
  - apply resolve_none.
  - intros st Hscan Hd Hp Hnd. unfold deviceByPartLabel.
    rewrite Hscan, Hd, Hp, Hnd, Itoa_nonempty. cbn [andb].
    destruct (resolve devices d (strconv.Itoa index)); reflexivity.
Qed.

Lemma resolve_first_partition_node_witness :
  fst (deviceByPartLabel disk_world
         [go "/dev/sda"; go "/dev/sda1"; go "/dev/sda2"] bootPartitionLabel)
  = match resolve [go "/dev/sda"; go "/dev/sda1"; go "/dev/sda2"]
            (go "/dev/sda") (strconv.Itoa 2) with
    | Some device => Ok device
    | None => Err (ErrCannotFindPartition (strconv.Itoa 2) (go "/dev/sda")
                     [go "/dev/sda"; go "/dev/sda1"; go "/dev/sda2"])
    end.
Proof.
  apply (proj2 (proj2 (proj2 (resolve_first_partition_node disk_world
           [go "/dev/sda"; go "/dev/sda1"; go "/dev/sda2"]
           (go "/dev/sda") bootPartitionLabel 2)))
           (fst (scan_devices disk_world
                   [go "/dev/sda"; go "/dev/sda1"; go "/dev/sda2"]
                   bootPartitionLabel locals0)));
    vm_compute; reflexivity.
Defined.

(* ------------------------------------------------------------------ *)
(** ** Events of [deviceByPartLabel] *)

Lemma scan_body_trace (w : World) (device label : gostring) (st : locals) :
  Forall (fun e => is_handle_event e = true) (trace st) ->
  Forall (fun e => is_handle_event e = true)
         (trace (fst (scan_body w device label st))).
Proof.
  intros Hst.
  assert (H1 : forall e, is_handle_event e = true ->
                 Forall (fun e => is_handle_event e = true) (trace st ++ [e])).
  { intros e He. apply Forall_app. split; [exact Hst | now constructor]. }
  unfold scan_body.
  destruct (os_Open w device); cbn [negb]; [|now apply H1].
  destruct (seek_fails w device); [now apply H1|].
  destruct (read_table w device) as [table| |];
    [|now apply H1|now apply H1].
  destruct (scan_partitions _ _ _ _ _ _) as [[d p]|]; [|now apply H1].
  destruct (nonempty d && nonempty p); now apply H1.
Qed.

Lemma scan_devices_trace (w : World) (label : gostring)
    (devices : list gostring) :
  forall st,
    Forall (fun e => is_handle_event e = true) (trace st) ->
    Forall (fun e => is_handle_event e = true)
           (trace (fst (scan_devices w devices label st))).
Proof.
  induction devices as [|device rest IH]; intros st Hst; [exact Hst|].
  cbn [scan_devices].
  pose proof (scan_body_trace w device label st Hst) as Hb.
  destruct (scan_body w device label st) as [st' [| |]]; cbn [fst] in *;
    [now apply IH | exact Hb | exact Hb].
Qed.

Lemma deviceByPartLabel_trace (w : World) (devices : list gostring)
    (label : gostring) :
  Forall (fun e => is_handle_event e = true)
         (snd (deviceByPartLabel w devices label)).
Proof.
  unfold deviceByPartLabel.
  pose proof (scan_devices_trace w label devices locals0 (Forall_nil _)) as H.
  destruct (scan_devices w devices label locals0) as [st panicking].
  cbn [fst] in H.
  assert (Hr : Forall (fun e => is_handle_event e = true) (run_deferred st)).
  { unfold run_deferred. apply Forall_app. split; [exact H|].
    apply Forall_forall. intros e He. apply in_map_iff in He.
    destruct He as [x [<- _]]. reflexivity. }
  destruct panicking; [exact Hr|].
  destruct (nonempty (var_d st) && nonempty (var_p st)); [|exact Hr].
  destruct (resolve devices (var_d st) (var_p st)); exact Hr.
Qed.

(* ------------------------------------------------------------------ *)
(** ** Retry orchestrator *)

Lemma count_event_app (f : event -> bool) (a b : list event) :
  count_event f (a ++ b) = (count_event f a + count_event f b)%nat.
Proof. unfold count_event. now rewrite filter_app, length_app. Qed.

Lemma count_event_none (f : event -> bool) (tr : list event) :
  Forall (fun e => f e = false) tr -> count_event f tr = 0%nat.
Proof.
  unfold count_event. induction 1 as [|e tr He _ IH]; [reflexivity|].
  cbn [filter]. now rewrite He.
Qed.

Lemma handle_events_count (f : event -> bool) (tr : list event) :
  (forall e, is_handle_event e = true -> f e = false) ->
  Forall (fun e => is_handle_event e = true) tr ->
  count_event f tr = 0%nat.
Proof.
  intros Hf H. apply count_event_none. eapply Forall_impl; [|exact H].
  exact Hf.
Qed.

Lemma count_waiting_rounds (n : nat) :
  count_event is_enumerate (waiting_rounds n) = n
  /\ count_event is_sleep (waiting_rounds n) = n.
Proof.
  unfold count_event. induction n as [|n [IH1 IH2]]; [now split|].
  cbn [waiting_rounds filter is_enumerate is_sleep List.length].
  now rewrite IH1, IH2.
Qed.

(** The loop when every enumeration from call [k0] on finds nothing. *)
Lemma wait_exhausted (w : World) (K : nat) :
  forall k0,
    (forall k, (k0 <= k)%nat -> getBlockDevs w k = Ok []) ->
    wait_for_devices w K k0
    = (Err ErrNoBlockDevices, waiting_rounds K ++ [EvEnumerate]).
Proof.
  induction K as [|K IH]; intros k0 Hempty; cbn [wait_for_devices].
  - now rewrite (Hempty k0 (le_n _)).
  - rewrite (Hempty k0 (le_n _)).
    rewrite (IH (S k0)) by (intros k Hk; apply Hempty; lia).
    reflexivity.
Qed.

(** The loop when call [k0 + N] is the first to find devices. *)
Lemma wait_succeeds (w : World) (devices : list gostring) (N : nat) :
  forall K k0,
    (N <= K)%nat ->
    (forall k, (k0 <= k < k0 + N)%nat -> getBlockDevs w k = Ok []) ->
    getBlockDevs w (k0 + N) = Ok devices ->
    devices <> [] ->
    wait_for_devices w K k0 = (Ok devices, waiting_rounds N ++ [EvEnumerate]).
Proof.
  induction N as [|N IH]; intros K k0 HNK Hempty Hfound Hne.
  - rewrite Nat.add_0_r in Hfound.
    destruct K; cbn [wait_for_devices]; rewrite Hfound;
      destruct devices; try contradiction; reflexivity.
  - destruct K as [|K]; [lia|]. cbn [wait_for_devices].
    rewrite (Hempty k0) by lia.
    rewrite (IH K (S k0)); [reflexivity | lia | | | exact Hne].
    + intros k Hk. apply Hempty. lia.
    + now replace (S k0 + N)%nat with (k0 + S N)%nat by lia.
Qed.

(** C3. With the file-system check passed and a retry budget [K]: if
    every enumeration finds no device, [findPartition] enumerates [K + 1]
    times, sleeping once between two consecutive attempts ([K] sleeps),
    and fails with the no-devices error; if the first [N <= K] calls find
    nothing and call [N + 1] finds devices, the loop ends with these
    devices after exactly [N] rounds of waiting, and [findPartition]
    neither sleeps nor enumerates again. *)
Theorem findPartition_retry
    (w : World) (label fsType mountPoint fs : gostring) (K : nat) :
  proc_filesystems w = Some fs ->
  strings.Contains fs fsType = true ->
  ((forall k, getBlockDevs w k = Ok []) ->
   findPartition w label fsType mountPoint K
   = (Err ErrNoBlockDevices, EvReadFile :: waiting_rounds K ++ [EvEnumerate])
   /\ count_event is_enumerate
        (snd (findPartition w label fsType mountPoint K)) = (K + 1)%nat
   /\ count_event is_sleep
        (snd (findPartition w label fsType mountPoint K)) = K)
  /\ (forall (N : nat) (devices : list gostring),
        (N <= K)%nat ->
        (forall k, (k < N)%nat -> getBlockDevs w k = Ok []) ->
        getBlockDevs w N = Ok devices ->
        devices <> [] ->
        wait_for_devices w K 0
        = (Ok devices, waiting_rounds N ++ [EvEnumerate])
        /\ count_event is_enumerate
             (snd (findPartition w label fsType mountPoint K)) = (N + 1)%nat
        /\ count_event is_sleep
             (snd (findPartition w label fsType mountPoint K)) = N).
Proof.
  intros Hfs Hsup.
  assert (Hcount : forall n,
             count_event is_enumerate
               (EvReadFile :: waiting_rounds n ++ [EvEnumerate]) = (n + 1)%nat
             /\ count_event is_sleep
                  (EvReadFile :: waiting_rounds n ++ [EvEnumerate]) = n).
  { intros n.
    change (EvReadFile :: waiting_rounds n ++ [EvEnumerate])
      with ([EvReadFile] ++ waiting_rounds n ++ [EvEnumerate]).
    rewrite !count_event_app.
    destruct (count_waiting_rounds n) as [-> ->]. cbn. split; lia. }
  split.
  - intros Hempty.
    assert (Hrun : findPartition w label fsType mountPoint K
                   = (Err ErrNoBlockDevices,
                      EvReadFile :: waiting_rounds K ++ [EvEnumerate])).
    { unfold findPartition. rewrite Hfs, Hsup. cbn [negb].
      rewrite (wait_exhausted w K 0) by (intros; apply Hempty).
      reflexivity. }
    rewrite Hrun. cbn [snd]. split; [reflexivity | apply Hcount].
  - intros N devices HNK Hempty Hfound Hne.
    assert (Hwait : wait_for_devices w K 0
                    = (Ok devices, waiting_rounds N ++ [EvEnumerate])).
    { apply wait_succeeds; try assumption.
      intros k Hk. apply Hempty. lia. }
    split; [exact Hwait|].
    assert (Htr : exists tr,
               snd (findPartition w label fsType mountPoint K)
               = (EvReadFile :: waiting_rounds N ++ [EvEnumerate]) ++ tr
               /\ count_event is_enumerate tr = 0%nat
               /\ count_event is_sleep tr = 0%nat).
    { unfold findPartition. rewrite Hfs, Hsup. cbn [negb]. rewrite Hwait.
      pose proof (deviceByPartLabel_trace w devices label) as Hh.
      destruct (deviceByPartLabel w devices label) as [r2 tr2].
      cbn [snd] in Hh.
      assert (He : count_event is_enumerate tr2 = 0%nat)
        by (apply handle_events_count; [now intros []|exact Hh]).
      assert (Hs : count_event is_sleep tr2 = 0%nat)
        by (apply handle_events_count; [now intros []|exact Hh]).
      destruct r2 as [device|e|].
      - destruct (mount_syscall w device mountPoint fsType);
          exists (tr2 ++ [EvMount device mountPoint fsType]); cbn [snd];
          (split; [cbn [app]; now rewrite <- app_assoc |]);
          rewrite !count_event_app, He, Hs; now split.
      - exists tr2. cbn [snd]. split; [cbn [app]; now rewrite <- app_assoc|].
        now split.
      - exists tr2. cbn [snd]. split; [cbn [app]; now rewrite <- app_assoc|].
        now split. }
    destruct Htr as [tr [-> [He Hs]]]. rewrite !count_event_app, He, Hs.
    destruct (Hcount N) as [-> ->]. split; lia.
Qed.

Lemma findPartition_retry_witness :
  (findPartition bare_world bootPartitionLabel bootPartitionFSType
     bootPartitionMountPoint 3
   = (Err ErrNoBlockDevices, EvReadFile :: waiting_rounds 3 ++ [EvEnumerate]))
  /\ wait_for_devices late_world 60 0
     = (Ok [go "/dev/sda"; go "/dev/sda1"],
        waiting_rounds 2 ++ [EvEnumerate]).
Proof.
  split.
  - apply (findPartition_retry bare_world bootPartitionLabel
             bootPartitionFSType bootPartitionMountPoint
             sample_filesystems 3 eq_refl); [vm_compute; reflexivity|].
    intros k. reflexivity.
  - apply (findPartition_retry late_world bootPartitionLabel
             bootPartitionFSType bootPartitionMountPoint
             sample_filesystems 60 eq_refl); [vm_compute; reflexivity| | | |].
    + lia.
    + intros [|[|k]] Hk; [reflexivity | reflexivity | lia].
    + vm_compute. reflexivity.
    + discriminate.
Defined.

(* ------------------------------------------------------------------ *)
(** ** The file-system check *)

Lemma wait_for_devices_trace (w : World) (K : nat) :
  forall k, Forall (fun e => is_readfile e = false)
                   (snd (wait_for_devices w K k)).
Proof.
  induction K as [|K IH]; intros k; cbn [wait_for_devices];
    destruct (getBlockDevs w k) as [[|d ds]|e|]; cbn [snd];
    try (repeat constructor).
  specialize (IH (S k)). destruct (wait_for_devices w K (S k)) as [r tr].
  cbn [snd] in *. repeat constructor. exact IH.
Qed.

Lemma wait_for_devices_error (w : World) (K : nat) :
  forall k e, fst (wait_for_devices w K k) = Err e ->
              e = ErrNoBlockDevices \/ exists c, e = ErrGetBlockDevs c.
Proof.
  induction K as [|K IH]; intros k e; cbn [wait_for_devices];
    destruct (getBlockDevs w k) as [[|d ds]|c|]; cbn [fst];
    try discriminate; try (intros H; injection H as <-; eauto).
  specialize (IH (S k) e). destruct (wait_for_devices w K (S k)) as [r tr].
  cbn [fst] in *. exact IH.
Qed.

(** The check: one read, first; the filesystem-unknown error exactly when
    the requested type is not a substring of the text read. *)
Lemma fs_check_substring
    (w : World) (label fsType mountPoint : gostring) (timeout : nat) :
  (exists tr, snd (findPartition w label fsType mountPoint timeout)
              = EvReadFile :: tr
              /\ count_event is_readfile tr = 0%nat)
  /\ (fst (findPartition w label fsType mountPoint timeout)
      = Err (ErrFilesystemUnknown fsType)
      <-> exists fs, proc_filesystems w = Some fs
                     /\ ~ exists pre post, fs = pre ++ fsType ++ post)
  /\ (fst (findPartition w label fsType mountPoint timeout)
      = Err (ErrFilesystemUnknown fsType)
      -> snd (findPartition w label fsType mountPoint timeout) = [EvReadFile]).
Proof.
  unfold findPartition.
  destruct (proc_filesystems w) as [fs|] eqn:Hfs.
  2:{ cbn [fst snd]. split; [|split; [split|]].
      - now exists [].
      - discriminate.
      - intros [fs [H _]]. discriminate.
      - discriminate. }
  destruct (strings.Contains fs fsType) eqn:Hc; cbn [negb].
  2:{ cbn [fst snd]. split; [|split; [split|]].
      - now exists [].
      - intros _. exists fs. split; [reflexivity|].
        intros H. apply Contains_spec in H. congruence.
      - intros [fs0 [H Hn]]. reflexivity.
      - reflexivity. }
  pose proof (wait_for_devices_trace w timeout 0) as Hwt.
  pose proof (wait_for_devices_error w timeout 0) as Hwe.
  destruct (wait_for_devices w timeout 0) as [r tr]. cbn [fst snd] in *.
  pose proof (fun devices => deviceByPartLabel_trace w devices label) as Hdt.
  assert (Hno : ~ (exists fs0, Some fs = Some fs0
                   /\ ~ exists pre post, fs0 = pre ++ fsType ++ post)).
  { intros [fs0 [H Hn]]. injection H as <-. apply Hn.
    now apply Contains_spec. }
  assert (Hcnt : forall tr2,
             Forall (fun e => is_handle_event e = true) tr2 ->
             count_event is_readfile (tr ++ tr2) = 0%nat).
  { intros tr2 H2. rewrite count_event_app.
    rewrite (count_event_none _ tr Hwt).
    rewrite (handle_events_count is_readfile tr2); [reflexivity| |exact H2].
    now intros []. }
  destruct r as [devices|e|].
  - specialize (Hdt devices).
    destruct (deviceByPartLabel w devices label) as [r2 tr2].
    cbn [snd] in Hdt. destruct r2 as [device|e|].
    + destruct (mount_syscall w device mountPoint fsType); cbn [fst snd];
        (split; [|split; [split|]];
         [ eexists; split; [reflexivity|];
           rewrite app_assoc, count_event_app, (Hcnt tr2 Hdt); reflexivity
         | discriminate | intros H; now destruct Hno | discriminate ]).
    + cbn [fst snd]. split; [|split; [split|]].
      * eexists; split; [reflexivity | now apply Hcnt].
      * discriminate.
      * intros H; now destruct Hno.
      * discriminate.
    + cbn [fst snd]. split; [|split; [split|]].
      * eexists; split; [reflexivity | now apply Hcnt].
      * discriminate.
      * intros H; now destruct Hno.
      * discriminate.
  - cbn [fst snd]. split; [|split; [split|]].
    + eexists; split; [reflexivity | now apply count_event_none].
    + intros H. injection H as ->.
      destruct (Hwe _ eq_refl) as [H | [c H]]; discriminate.
    + intros H; now destruct Hno.
    + intros H. injection H as ->.
      destruct (Hwe _ eq_refl) as [H | [c H]]; discriminate.
  - cbn [fst snd]. split; [|split; [split|]].
    + eexists; split; [reflexivity | now apply count_event_none].
    + discriminate.
    + intros H; now destruct Hno.
    + discriminate.
Qed.

(** A failure to read /proc/filesystems is returned as it is, and is the
    only source of that error. *)
Lemma fs_read_failure
    (w : World) (label fsType mountPoint : gostring) (timeout : nat) :
  (proc_filesystems w = None ->
   findPartition w label fsType mountPoint timeout
   = (Err ErrReadFile, [EvReadFile]))
  /\ (fst (findPartition w label fsType mountPoint timeout) = Err ErrReadFile
      <-> proc_filesystems w = None).
Proof.
  unfold findPartition.
  destruct (proc_filesystems w) as [fs|]; [|now repeat split].
  split; [discriminate|]. split; [|discriminate]. intros H. exfalso.
  destruct (strings.Contains fs fsType); cbn [negb] in H; [|discriminate].
  pose proof (wait_for_devices_error w timeout 0) as Hwe.
  destruct (wait_for_devices w timeout 0) as [r tr]. cbn [fst] in Hwe.
  destruct r as [devices|e|]; [| |discriminate].
  - destruct (deviceByPartLabel w devices label) as [[device|e|] tr2];
      [|discriminate|discriminate].
    destruct (mount_syscall w device mountPoint fsType); discriminate.
  - cbn [fst] in H. injection H as ->.
    destruct (Hwe _ eq_refl) as [H | [c H]]; discriminate.
Qed.

(** C6, as the code has it.  [findPartition] reads /proc/filesystems
    once, before anything else, and fails with the filesystem-unknown
    error exactly when the file was read and the requested type is not a
    substring of its text; it then has enumerated nothing.  When the file
    cannot be read, that failure is what [findPartition] returns, having
    done nothing else, and no other failure gives that error. *)
Theorem findPartition_fs_check
    (w : World) (label fsType mountPoint : gostring) (timeout : nat) :
  (exists tr, snd (findPartition w label fsType mountPoint timeout)
              = EvReadFile :: tr
              /\ count_event is_readfile tr = 0%nat)
  /\ (fst (findPartition w label fsType mountPoint timeout)
      = Err (ErrFilesystemUnknown fsType)
      <-> exists fs, proc_filesystems w = Some fs
                     /\ ~ exists pre post, fs = pre ++ fsType ++ post)
  /\ (fst (findPartition w label fsType mountPoint timeout)
      = Err (ErrFilesystemUnknown fsType)
      -> snd (findPartition w label fsType mountPoint timeout) = [EvReadFile])
  /\ (proc_filesystems w = None ->
      findPartition w label fsType mountPoint timeout
      = (Err ErrReadFile, [EvReadFile]))
  /\ (fst (findPartition w label fsType mountPoint timeout) = Err ErrReadFile
      <-> proc_filesystems w = None).
Proof.
  destruct (fs_check_substring w label fsType mountPoint timeout)
    as [H1 [H2 H3]].
  destruct (fs_read_failure w label fsType mountPoint timeout) as [H4 H5].
  split; [exact H1|]. split; [exact H2|]. split; [exact H3|].
  split; [exact H4 | exact H5].
Qed.

Lemma findPartition_fs_check_witness :
  snd (findPartition bare_world bootPartitionLabel (go "btrfs")
         bootPartitionMountPoint 60) = [EvReadFile]
  /\ findPartition unreadable_world bootPartitionLabel bootPartitionFSType
       bootPartitionMountPoint 60 = (Err ErrReadFile, [EvReadFile]).
Proof.
  split.
  - apply (proj1 (proj2 (proj2 (findPartition_fs_check bare_world
             bootPartitionLabel (go "btrfs") bootPartitionMountPoint 60)))).
    vm_compute. reflexivity.
  - apply (proj1 (proj2 (proj2 (proj2 (findPartition_fs_check
             unreadable_world bootPartitionLabel bootPartitionFSType
             bootPartitionMountPoint 60))))).
    reflexivity.
Defined.

(** C6, as the spec words it, fails: "fat" is no listed type, yet the
    check lets it through because "vfat" is listed. *)
Lemma fs_check_counterexample :
  ~ (forall (w : World) (label fsType mountPoint fs : gostring)
            (timeout : nat),
       proc_filesystems w = Some fs ->
       (fst (findPartition w label fsType mountPoint timeout)
        = Err (ErrFilesystemUnknown fsType)
        <-> ~ In fsType (listed_filesystems fs))).
Proof.
  intros H.
  specialize (H bare_world bootPartitionLabel (go "fat")
                bootPartitionMountPoint sample_filesystems 0%nat eq_refl).
  assert (Hl : listed_filesystems sample_filesystems
               = [go "sysfs"; go "ext4"; go "vfat"])
    by (vm_compute; reflexivity).
  assert (Hn : ~ In (go "fat") (listed_filesystems sample_filesystems)).
  { rewrite Hl. cbn. intros [E | [E | [E | []]]]; discriminate. }
  apply H in Hn. vm_compute in Hn. discriminate.
Qed.

(* ------------------------------------------------------------------ *)
(** ** Partition locator *)

Lemma scan_partitions_cons (part : Partition) (rest : list Partition)
    (n : nat) (device label d p : gostring) :
  scan_partitions (part :: rest) n device label d p =
  if entry_matches label part then Some (device, strconv.Itoa (n + 1))
  else scan_partitions rest (S n) device label d p.
Proof.
  cbn [scan_partitions]. unfold entry_matches.
  destruct (IsEmpty part); cbn [negb andb]; [reflexivity|].
  rewrite decodeLabel_eq.
  destruct (Nat.odd (List.length (PartNameUTF16 part))); reflexivity.
Qed.

Lemma scan_partitions_no_match (label : gostring) (parts : list Partition) :
  forallb (fun part => negb (entry_matches label part)) parts = true ->
  forall n device d p,
    scan_partitions parts n device label d p = Some (d, p).
Proof.
  induction parts as [|part rest IH]; intros H n device d p; [reflexivity|].
  cbn [forallb] in H. apply andb_prop in H. destruct H as [H1 H2].
  rewrite scan_partitions_cons. apply negb_true_iff in H1. rewrite H1.
  now apply IH.
Qed.

Lemma scan_partitions_first (label : gostring) (parts : list Partition) :
  forall (i : nat) (part : Partition),
    nth_error parts i = Some part ->
    entry_matches label part = true ->
    (forall j part', (j < i)%nat -> nth_error parts j = Some part' ->
                     entry_matches label part' = false) ->
    forall n device d p,
      scan_partitions parts n device label d p
      = Some (device, strconv.Itoa (n + i + 1)).
Proof.
  induction parts as [|x rest IH]; intros i part Hnth Hm Hbefore n device d p.
  - destruct i; discriminate.
  - rewrite scan_partitions_cons. destruct i as [|i].
    + injection Hnth as ->. rewrite Hm. now rewrite Nat.add_0_r.
    + rewrite (Hbefore 0%nat x) by (reflexivity || lia).
      rewrite (IH i part Hnth Hm).
      * f_equal. f_equal. f_equal. lia.
      * intros j part' Hj Hn. apply (Hbefore (S j) part'); [lia | exact Hn].
Qed.



Lemma scan_body_panic (w : World) (device label : gostring) (st : locals) :
  panics w device = true ->
  scan_body w device label st
  = ({| var_d := var_d st; var_p := var_p st;
        deferred := device :: deferred st;
        trace := trace st ++ [EvOpen device] |}, Unwind).
Proof.
  unfold scan_body, panics.
  destruct (os_Open w device); cbn [negb andb]; [|discriminate].
  destruct (seek_fails w device); cbn [negb andb]; [discriminate|].
  destruct (read_table w device) as [table| |]; [discriminate|discriminate|].
  reflexivity.
Qed.

(** A device that cannot be inspected, its parser not panicking, leaves
    [d] and [p] alone and the loop goes on. *)
Lemma scan_body_failure (w : World) (device label : gostring) (st : locals) :
  inspect w device = None ->
  panics w device = false ->
  exists st', scan_body w device label st = (st', Next)
              /\ var_d st' = var_d st /\ var_p st' = var_p st
              /\ attempted (trace st') = attempted (trace st) ++ [device].
Proof.
  unfold inspect, scan_body, panics. unfold attempted.
  destruct (os_Open w device); cbn [negb andb].
  - destruct (seek_fails w device); cbn [negb].
    + intros _ _. eexists. split; [reflexivity|]. cbn.
      rewrite flat_map_app. auto.
    + destruct (read_table w device) as [table| |];
        [discriminate | | intros _ H; discriminate].
      intros _ _. eexists. split; [reflexivity|]. cbn.
      rewrite flat_map_app. auto.
  - intros _ _. eexists. split; [reflexivity|]. cbn.
    rewrite flat_map_app. auto.
Qed.

Lemma read_table_inspect (w : World) (device : gostring) (table : Table) :
  inspect w device = Some table ->
  os_Open w device = true /\ seek_fails w device = false
  /\ read_table w device = Parsed table.
Proof.
  unfold inspect. destruct (os_Open w device); [|discriminate].
  destruct (seek_fails w device); [discriminate|].
  destruct (read_table w device) as [t| |]; try discriminate.
  intros H. injection H as ->. auto.
Qed.

Lemma inspect_not_panics (w : World) (device : gostring) (table : Table) :
  inspect w device = Some table -> panics w device = false.
Proof.
  intros H. destruct (read_table_inspect w device table H) as [Ho [Hs Hr]].
  unfold panics. now rewrite Ho, Hs, Hr.
Qed.

(** A device passed over, met before anything was found. *)
Lemma scan_body_no_match (w : World) (device label : gostring) (st : locals) :
  skipped w label device ->
  var_d st = [] -> var_p st = [] ->
  exists st', scan_body w device label st = (st', Next)
              /\ var_d st' = [] /\ var_p st' = []
              /\ attempted (trace st') = attempted (trace st) ++ [device].
Proof.
  intros [Hno Hquiet] Hd Hp.
  destruct (inspect w device) as [table|] eqn:Hi.
  - specialize (Hno table Hi).
    destruct (read_table_inspect w device table Hi) as [Ho [Hs Hr]].
    unfold scan_body. rewrite Ho, Hs, Hr. cbn [negb].
    rewrite (scan_partitions_no_match label _ Hno). cbn [var_d var_p].
    rewrite Hd, Hp. cbn [nonempty andb]. eexists. split; [reflexivity|].
    cbn. unfold attempted. rewrite flat_map_app. auto.
  - destruct (scan_body_failure w device label st Hi Hquiet)
      as [st' [H1 [H2 [H3 H4]]]].
    exists st'. rewrite H2, H3. auto.
Qed.

(** The device that holds the first matching entry ends the loop. *)
Lemma scan_body_match (w : World) (device label : gostring) (st : locals)
    (table : Table) (i : nat) (part : Partition) :
  inspect w device = Some table ->
  nth_error (Partitions table) i = Some part ->
  entry_matches label part = true ->
  (forall j part', (j < i)%nat -> nth_error (Partitions table) j = Some part' ->
                   entry_matches label part' = false) ->
  scan_body w device label st
  = ({| var_d := device; var_p := strconv.Itoa (i + 1);
        deferred := device :: deferred st;
        trace := trace st ++ [EvOpen device] |}, Break).
Proof.
  intros Hi Hnth Hm Hbefore.
  destruct (read_table_inspect w device table Hi) as [Ho [Hs Hr]].
  unfold scan_body. rewrite Ho, Hs, Hr. cbn [negb].
  rewrite (scan_partitions_first label _ i part Hnth Hm Hbefore).
  cbn [Nat.add]. rewrite Itoa_nonempty.
  assert (Hne : nonempty device = true).
  { unfold os_Open in Ho. destruct device; [discriminate | reflexivity]. }
  rewrite Hne. reflexivity.
Qed.

Lemma scan_devices_skip (w : World) (label : gostring) (pre : list gostring) :
  Forall (skipped w label) pre ->
  forall st, var_d st = [] -> var_p st = [] ->
    exists st', var_d st' = [] /\ var_p st' = []
                /\ attempted (trace st') = attempted (trace st) ++ pre
                /\ forall rest, scan_devices w (pre ++ rest) label st
                                = scan_devices w rest label st'.
Proof.
  induction 1 as [|device pre Hdev _ IH]; intros st Hd Hp.
  - exists st. rewrite app_nil_r. auto.
  - destruct (scan_body_no_match w device label st Hdev Hd Hp)
      as [st1 [Hb [Hd1 [Hp1 Ha1]]]].
    destruct (IH st1 Hd1 Hp1) as [st' [Hd' [Hp' [Ha' Hs']]]].
    exists st'. repeat split; try assumption.
    + rewrite Ha', Ha1, <- app_assoc. reflexivity.
    + intros rest. cbn [app scan_devices]. rewrite Hb. apply Hs'.
Qed.




Lemma inspect_none (w : World) (device : gostring) :
  inspect w device = None <->
  os_Open w device = false \/ seek_fails w device = true
  \/ read_table w device = ParseError \/ read_table w device = ParsePanic.
Proof.
  unfold inspect. destruct (os_Open w device), (seek_fails w device),
    (read_table w device); intuition congruence.
Qed.



(** *** The three ways a scan can end *)

Lemma first_match_exists (label : gostring) (parts : list Partition) :
  forallb (fun part => negb (entry_matches label part)) parts = false ->
  exists i part,
    nth_error parts i = Some part
    /\ entry_matches label part = true
    /\ forall j part', (j < i)%nat -> nth_error parts j = Some part' ->
                       entry_matches label part' = false.
Proof.
  induction parts as [|x parts IH]; [discriminate|].
  cbn [forallb]. destruct (entry_matches label x) eqn:Hx; cbn [negb andb].
  - intros _. exists 0%nat, x. repeat split; auto. intros j part' Hj. lia.
  - intros H. destruct (IH H) as [i [part [Hn [Hm Hb]]]].
    exists (S i), part. repeat split; auto.
    intros [|j] part' Hj Hn'.
    + injection Hn' as <-. exact Hx.
    + apply (Hb j part'); [lia | exact Hn'].
Qed.

Lemma device_cases (w : World) (label device : gostring) :
  skipped w label device
  \/ (exists table i part,
        inspect w device = Some table /\ first_entry label table i part)
  \/ panics w device = true.
Proof.
  destruct (panics w device) eqn:Hp; [right; now right|].
  destruct (inspect w device) as [table|] eqn:Hi.
  - destruct (forallb (fun part => negb (entry_matches label part))
                (Partitions table)) eqn:Hall.
    + left. split; [|exact Hp].
      intros t Ht. rewrite Hi in Ht. injection Ht as <-. exact Hall.
    + right. left. destruct (first_match_exists label _ Hall) as [i [part H]].
      now exists table, i, part.
  - left. split; [|exact Hp]. intros t Ht. rewrite Hi in Ht. discriminate.
Qed.

Lemma devices_cases (w : World) (label : gostring)
    (devices : list gostring) :
  Forall (skipped w label) devices
  \/ (exists pre d post table i part,
        devices = pre ++ d :: post
        /\ Forall (skipped w label) pre
        /\ inspect w d = Some table
        /\ first_entry label table i part)
  \/ (exists pre d post,
        devices = pre ++ d :: post
        /\ Forall (skipped w label) pre
        /\ panics w d = true).
Proof.
  induction devices as [|x devices IH]; [left; constructor|].
  destruct (device_cases w label x)
    as [Hx | [[table [i [part [Hi Hf]]]] | Hpanic]].
  - destruct IH as [Hall
                   | [[pre [d [post [table [i [part [-> [Hp H]]]]]]]]
                     | [pre [d [post [-> [Hp H]]]]]]].
    + left. now constructor.
    + right. left. exists (x :: pre), d, post, table, i, part.
      split; [reflexivity|]. split; [now constructor | exact H].
    + right. right. exists (x :: pre), d, post.
      split; [reflexivity|]. split; [now constructor | exact H].
  - right. left. exists [], x, devices, table, i, part. auto.
  - right. right. exists [], x, devices. auto.
Qed.

Lemma scan_devices_at_first (w : World) (label : gostring)
    (pre : list gostring) (d : gostring) (post : list gostring)
    (table : Table) (i : nat) (part : Partition) :
  Forall (skipped w label) pre ->
  inspect w d = Some table ->
  first_entry label table i part ->
  exists st,
    scan_devices w (pre ++ d :: post) label locals0 = (st, false)
    /\ var_d st = d /\ var_p st = strconv.Itoa (i + 1)
    /\ attempted (trace st) = pre ++ [d].
Proof.
  intros Hpre Hi [Hn [Hm Hb]].
  destruct (scan_devices_skip w label pre Hpre locals0 eq_refl eq_refl)
    as [st1 [_ [_ [Ha Hs]]]].
  rewrite Hs. cbn [scan_devices].
  rewrite (scan_body_match w d label st1 table i part Hi Hn Hm Hb).
  eexists. split; [reflexivity|]. cbn [var_d var_p trace]. repeat split.
  unfold attempted in *. rewrite flat_map_app, Ha. reflexivity.
Qed.

Lemma scan_devices_at_panic (w : World) (label : gostring)
    (pre : list gostring) (d : gostring) (post : list gostring) :
  Forall (skipped w label) pre ->
  panics w d = true ->
  exists st,
    scan_devices w (pre ++ d :: post) label locals0 = (st, true)
    /\ var_d st = [] /\ var_p st = []
    /\ attempted (trace st) = pre ++ [d].
Proof.
  intros Hpre Hpanic.
  destruct (scan_devices_skip w label pre Hpre locals0 eq_refl eq_refl)
    as [st1 [Hd [Hp [Ha Hs]]]].
  rewrite Hs. cbn [scan_devices].
  rewrite (scan_body_panic w d label st1 Hpanic).
  eexists. split; [reflexivity|]. cbn [var_d var_p trace]. repeat split;
    try assumption.
  unfold attempted in *. rewrite flat_map_app, Ha. reflexivity.
Qed.

Lemma scan_devices_outcome (w : World) (devices : list gostring)
    (label : gostring) :
  (Forall (skipped w label) devices
   /\ exists st, scan_devices w devices label locals0 = (st, false)
                 /\ var_d st = [] /\ var_p st = []
                 /\ attempted (trace st) = devices)
  \/ (exists pre d post table i part st,
        devices = pre ++ d :: post
        /\ Forall (skipped w label) pre
        /\ inspect w d = Some table
        /\ first_entry label table i part
        /\ scan_devices w devices label locals0 = (st, false)
        /\ var_d st = d /\ var_p st = strconv.Itoa (i + 1)
        /\ attempted (trace st) = pre ++ [d])
  \/ (exists pre d post st,
        devices = pre ++ d :: post
        /\ Forall (skipped w label) pre
        /\ panics w d = true
        /\ scan_devices w devices label locals0 = (st, true)
        /\ attempted (trace st) = pre ++ [d]).
Proof.
  destruct (devices_cases w label devices)
    as [Hall
       | [[pre [d [post [table [i [part [-> [Hpre [Hi Hf]]]]]]]]]
         | [pre [d [post [-> [Hpre Hpanic]]]]]]].
  - left. split; [exact Hall|].
    destruct (scan_devices_skip w label devices Hall locals0 eq_refl eq_refl)
      as [st [Hd [Hp [Ha Hs]]]].
    specialize (Hs []). rewrite app_nil_r in Hs. cbn [scan_devices] in Hs.
    exists st. auto.
  - right. left.
    destruct (scan_devices_at_first w label pre d post table i part
                Hpre Hi Hf) as [st [Hs [Hd [Hp Ha]]]].
    exists pre, d, post, table, i, part, st. repeat split; try assumption;
      apply Hf.
  - right. right.
    destruct (scan_devices_at_panic w label pre d post Hpre Hpanic)
      as [st [Hs [_ [_ Ha]]]].
    exists pre, d, post, st. auto.
Qed.

Lemma inspect_nonempty (w : World) (d : gostring) (table : Table) :
  inspect w d = Some table -> nonempty d = true.
Proof.
  unfold inspect, os_Open. destruct d; [discriminate | reflexivity].
Qed.


Lemma deviceByPartLabel_unfold (w : World) (devices : list gostring)
    (label : gostring) (st : locals) (panicking : bool) :
  scan_devices w devices label locals0 = (st, panicking) ->
  snd (deviceByPartLabel w devices label) = run_deferred st
  /\ fst (deviceByPartLabel w devices label)
     = if panicking then Panic
       else if nonempty (var_d st) && nonempty (var_p st) then
         match resolve devices (var_d st) (var_p st) with
         | Some device => Ok device
         | None => Err (ErrCannotFindPartition (var_p st) (var_d st) devices)
         end
       else Err (ErrNoDeviceWithLabel label).
Proof.
  intros Hs. unfold deviceByPartLabel. rewrite Hs.
  destruct panicking; [now split|].
  destruct (nonempty (var_d st) && nonempty (var_p st)); [|now split].
  destruct (resolve devices (var_d st) (var_p st)); now split.
Qed.







(* ------------------------------------------------------------------ *)
(** ** Device handles *)

Lemma scan_body_handles (w : World) (device label : gostring) (st : locals) :
  deferred st = rev (opened (trace st)) ->
  closed (trace st) = [] ->
  deferred (fst (scan_body w device label st))
  = rev (opened (trace (fst (scan_body w device label st))))
  /\ closed (trace (fst (scan_body w device label st))) = [].
Proof.
  intros Hdef Hcl.
  assert (Hopen : rev (opened (trace st ++ [EvOpen device]))
                  = device :: deferred st).
  { unfold opened in *. rewrite flat_map_app, rev_app_distr, Hdef.
    reflexivity. }
  assert (Hfail : rev (opened (trace st ++ [EvOpenFailed device]))
                  = deferred st).
  { unfold opened in *. rewrite flat_map_app, rev_app_distr, Hdef.
    reflexivity. }
  assert (Hc : forall e, closed [e] = [] -> closed (trace st ++ [e]) = []).
  { intros e He. unfold closed in *. now rewrite flat_map_app, Hcl, He. }
  unfold scan_body.
  destruct (os_Open w device); cbn [negb].
  2:{ cbn [fst deferred trace]. split; [now rewrite Hfail | now apply Hc]. }
  destruct (seek_fails w device).
  { cbn [fst deferred trace]. split; [now rewrite Hopen | now apply Hc]. }
  destruct (read_table w device) as [table| |].
  2,3: cbn [fst deferred trace]; split; [now rewrite Hopen | now apply Hc].
  destruct (scan_partitions _ _ _ _ _ _) as [[d p]|].
  2:{ cbn [fst deferred trace]. split; [now rewrite Hopen | now apply Hc]. }
  destruct (nonempty d && nonempty p); cbn [fst deferred trace];
    (split; [now rewrite Hopen | now apply Hc]).
Qed.

Lemma scan_devices_handles (w : World) (label : gostring)
    (devices : list gostring) :
  forall st,
    deferred st = rev (opened (trace st)) ->
    closed (trace st) = [] ->
    deferred (fst (scan_devices w devices label st))
    = rev (opened (trace (fst (scan_devices w devices label st))))
    /\ closed (trace (fst (scan_devices w devices label st))) = [].
Proof.
  induction devices as [|device rest IH]; intros st Hdef Hcl; [now split|].
  cbn [scan_devices].
  pose proof (scan_body_handles w device label st Hdef Hcl) as [H1 H2].
  destruct (scan_body w device label st) as [st' [| |]]; cbn [fst] in *;
    [now apply IH | now split | now split].
Qed.

(** Every handle is closed, but only when [deviceByPartLabel] returns:
    its events are those of the scan, none of them a close, followed by
    the closes of all opened devices, last opened first. *)
Lemma handles_closed_at_return (w : World) (devices : list gostring)
    (label : gostring) :
  exists tr,
    snd (deviceByPartLabel w devices label)
    = tr ++ map EvClose (rev (opened tr))
    /\ closed tr = []
    /\ tr = trace (fst (scan_devices w devices label locals0)).
Proof.
  unfold deviceByPartLabel.
  pose proof (scan_devices_handles w label devices locals0 eq_refl eq_refl)
    as [H1 H2].
  destruct (scan_devices w devices label locals0) as [st panicking].
  cbn [fst] in *. exists (trace st).
  assert (Hr : run_deferred st = trace st ++ map EvClose (rev (opened (trace st))))
    by (unfold run_deferred; now rewrite H1).
  repeat split; try assumption.
  destruct panicking; [exact Hr|].
  destruct (nonempty (var_d st) && nonempty (var_p st)); [|exact Hr].
  destruct (resolve devices (var_d st) (var_p st)); exact Hr.
Qed.

(** C9 does not hold of the code: [defer fd.Close()] inside the loop
    postpones every close to the return of [deviceByPartLabel].  Whatever
    the devices, no handle is closed while the scan runs, and all of them
    are closed at the return, last opened first; with the disks /dev/sda
    and /dev/sdb, the handle on /dev/sda is still open when /dev/sdb is
    opened, and two handles are open at once. *)
Theorem handles_stay_open_during_scan :
  (forall (w : World) (devices : list gostring) (label : gostring),
      exists tr,
        tr = trace (fst (scan_devices w devices label locals0))
        /\ closed tr = []
        /\ snd (deviceByPartLabel w devices label)
           = tr ++ map EvClose (rev (opened tr)))
  /\ deviceByPartLabel two_disk_world
       [go "/dev/sda"; go "/dev/sdb"; go "/dev/sdb1"] bootPartitionLabel
     = (Ok (go "/dev/sdb1"),
        [EvOpen (go "/dev/sda"); EvOpen (go "/dev/sdb");
         EvClose (go "/dev/sdb"); EvClose (go "/dev/sda")])
  /\ max_open (snd (deviceByPartLabel two_disk_world
                      [go "/dev/sda"; go "/dev/sdb"; go "/dev/sdb1"]
                      bootPartitionLabel)) = 2%nat.
Proof.
  split; [|split; vm_compute; reflexivity].
  intros w devices label.
  destruct (handles_closed_at_return w devices label) as [tr [H1 [H2 H3]]].
  exists tr. auto.
Qed.

(* ================================================================== *)
(** * Further properties of the code *)

(* ------------------------------------------------------------------ *)
(** ** Device enumerator *)

Lemma walk_callback_fold (rels : list gostring) :
  forall devnames,
    fold_left walk_callback rels devnames
    = devnames ++ map filepath_Join_dev (filter kept_rel rels).
Proof.
  induction rels as [|rel rels IH]; intros devnames.
  - cbn. now rewrite app_nil_r.
  - cbn [fold_left filter]. rewrite IH. unfold walk_callback, kept_rel.
    destruct (gostring_eqb rel (go ".")); cbn [negb andb]; [reflexivity|].
    destruct (strings.Contains rel (go "loop")); cbn [negb]; [reflexivity|].
    cbn [map]. now rewrite <- app_assoc.
Qed.

Lemma Join_dev_loop (rel : gostring) :
  strings.Contains (filepath_Join_dev rel) (go "loop")
  = strings.Contains rel (go "loop").
Proof. reflexivity. Qed.

(** X1. [getBlockDevs] returns, in the order of the walk, the path
    "/dev/" ++ rel of every visited relative path rel other than "." that
    holds no "loop"; so every returned path starts with "/dev/", is not
    empty and holds no "loop"; a walk that stops on an error gives the
    walking error and no devices. *)
Theorem getBlockDevs_kept_in_order (w : World) (k : nat) :
  (forall rels, walk w k = Some rels ->
      getBlockDevs w k = Ok (map filepath_Join_dev (filter kept_rel rels))
      /\ forall devices, getBlockDevs w k = Ok devices ->
           Forall (fun d => strings.HasPrefix d (go "/dev/") = true
                            /\ nonempty d = true
                            /\ strings.Contains d (go "loop") = false)
                  devices)
  /\ (walk w k = None -> getBlockDevs w k = Err ErrWalk).
Proof.
  unfold getBlockDevs. split.
  - intros rels ->. rewrite walk_callback_fold. cbn [app]. split; [reflexivity|].
    intros devices H. injection H as <-.
    apply Forall_forall. intros d Hd. apply in_map_iff in Hd.
    destruct Hd as [rel [<- Hrel]]. apply filter_In in Hrel.
    destruct Hrel as [_ Hk]. unfold kept_rel in Hk.
    apply andb_prop in Hk. destruct Hk as [_ Hk]. apply negb_true_iff in Hk.
    repeat split.
    + apply HasPrefix_spec. now exists rel.
    + rewrite Join_dev_loop. exact Hk.
  - now intros ->.
Qed.

Lemma getBlockDevs_kept_in_order_witness :
  getBlockDevs disk_world 0
  = Ok (map filepath_Join_dev
          (filter kept_rel
             [go "."; go "loop0"; go "sda"; go "sda1"; go "sda2"])).
Proof.
  apply (proj1 (getBlockDevs_kept_in_order disk_world 0)). reflexivity.
Defined.

(* ------------------------------------------------------------------ *)
(** ** The waiting loop, whatever the enumerator does *)

(** However the enumerator behaves, the waiting loop ends after some
    [n <= timeout] rounds of "enumerate, find nothing, sleep", and what
    call [n + 1] gave decides the result. *)
Lemma wait_for_devices_inv (w : World) (timeout : nat) :
  forall (k : nat) (r : res (list gostring)) (tr : list event),
    wait_for_devices w timeout k = (r, tr) ->
    exists n,
      (n <= timeout)%nat
      /\ tr = waiting_rounds n ++ [EvEnumerate]
      /\ (forall j, (j < n)%nat -> getBlockDevs w (k + j) = Ok [])
      /\ match r with
         | Ok devices => devices <> [] /\ getBlockDevs w (k + n) = Ok devices
         | Err e =>
             (e = ErrNoBlockDevices /\ n = timeout
              /\ getBlockDevs w (k + n) = Ok [])
             \/ (exists c, e = ErrGetBlockDevs c
                           /\ getBlockDevs w (k + n) = Err c)
         | Panic => getBlockDevs w (k + n) = Panic
         end.
Proof.
  induction timeout as [|timeout IH]; intros k r tr; cbn [wait_for_devices].
  - destruct (getBlockDevs w k) as [[|d ds]|c|] eqn:Hg; intros H;
      injection H as <- <-; exists 0%nat; rewrite Nat.add_0_r;
      (split; [lia|]); (split; [reflexivity|]); (split; [intros j Hj; lia|]).
    + left. auto.
    + split; [discriminate | exact Hg].
    + right. eauto.
    + exact Hg.
  - destruct (getBlockDevs w k) as [[|d ds]|c|] eqn:Hg.
    + destruct (wait_for_devices w timeout (S k)) as [r' tr'] eqn:Hw.
      intros H. injection H as <- <-.
      destruct (IH (S k) r' tr' Hw) as [n [Hn [Htr [Hempty Hlast]]]].
      exists (S n). split; [lia|]. split; [now rewrite Htr|].
      split.
      * intros [|j] Hj; [now rewrite Nat.add_0_r|].
        replace (k + S j)%nat with (S k + j)%nat by lia. apply Hempty. lia.
      * replace (k + S n)%nat with (S k + n)%nat by lia.
        destruct r' as [devices|e|]; try exact Hlast.
        destruct Hlast as [[He [Hn' Hg']] | Hc]; [left | right; exact Hc].
        repeat split; [exact He | lia | exact Hg'].
    + intros H. injection H as <- <-. exists 0%nat. rewrite Nat.add_0_r.
      split; [lia|]. split; [reflexivity|]. split; [intros j Hj; lia|].
      split; [discriminate | exact Hg].
    + intros H. injection H as <- <-. exists 0%nat. rewrite Nat.add_0_r.
      split; [lia|]. split; [reflexivity|]. split; [intros j Hj; lia|].
      right. eauto.
    + intros H. injection H as <- <-. exists 0%nat. rewrite Nat.add_0_r.
      split; [lia|]. split; [reflexivity|]. split; [intros j Hj; lia|].
      exact Hg.
Qed.

Lemma count_waiting_rounds_mount (n : nat) :
  count_event is_mount (waiting_rounds n ++ [EvEnumerate]) = 0%nat.
Proof.
  apply count_event_none. apply Forall_app. split; [|repeat constructor].
  induction n; cbn [waiting_rounds]; repeat constructor. assumption.
Qed.

(** The events of [findPartition]: the read of /proc/filesystems, then,
    if the check passed, [n <= timeout] waiting rounds, one more
    enumeration and a tail without sleeps or enumerations and with at most
    one mount. *)
Lemma findPartition_trace_shape
    (w : World) (label fsType mountPoint : gostring) (timeout : nat) :
  snd (findPartition w label fsType mountPoint timeout) = [EvReadFile]
  \/ exists n tail,
       (n <= timeout)%nat
       /\ snd (findPartition w label fsType mountPoint timeout)
          = [EvReadFile] ++ (waiting_rounds n ++ [EvEnumerate]) ++ tail
       /\ count_event is_sleep tail = 0%nat
       /\ count_event is_enumerate tail = 0%nat
       /\ (count_event is_mount tail <= 1)%nat.
Proof.
  unfold findPartition.
  destruct (proc_filesystems w) as [fs|]; [|now left].
  destruct (strings.Contains fs fsType); cbn [negb]; [|now left].
  right.
  destruct (wait_for_devices w timeout 0) as [r tr] eqn:Hw.
  destruct (wait_for_devices_inv w timeout 0 r tr Hw) as [n [Hn [-> _]]].
  exists n.
  destruct r as [devices|e|]; cbn [snd].
  2,3: exists []; rewrite app_nil_r; cbn; repeat split; auto; lia.
  pose proof (deviceByPartLabel_trace w devices label) as Hh.
  destruct (deviceByPartLabel w devices label) as [r2 tr2]. cbn [snd] in Hh.
  assert (Hs2 : count_event is_sleep tr2 = 0%nat)
    by (apply handle_events_count; [now intros []|exact Hh]).
  assert (He2 : count_event is_enumerate tr2 = 0%nat)
    by (apply handle_events_count; [now intros []|exact Hh]).
  assert (Hm2 : count_event is_mount tr2 = 0%nat)
    by (apply handle_events_count; [now intros []|exact Hh]).
  destruct r2 as [device|e|]; cbn [snd].
  - exists (tr2 ++ [EvMount device mountPoint fsType]).
    split; [exact Hn|]. split.
    + destruct (mount_syscall w device mountPoint fsType); reflexivity.
    + rewrite !count_event_app, Hs2, He2, Hm2. cbn. repeat split; lia.
  - exists tr2. rewrite Hm2. repeat split; auto.
  - exists tr2. rewrite Hm2. repeat split; auto.
Qed.

(** X3. Whatever the machine does, [findPartition] sleeps at most
    [timeout] times, enumerates once more than it sleeps unless it stopped
    at the file-system check (then it does neither), reads
    /proc/filesystems first, and calls mount at most once. *)
Theorem findPartition_budget
    (w : World) (label fsType mountPoint : gostring) (timeout : nat) :
  (count_event is_sleep (snd (findPartition w label fsType mountPoint timeout))
   <= timeout)%nat
  /\ (count_event is_enumerate
        (snd (findPartition w label fsType mountPoint timeout))
      = S (count_event is_sleep
             (snd (findPartition w label fsType mountPoint timeout)))
      \/ snd (findPartition w label fsType mountPoint timeout) = [EvReadFile])
  /\ hd_error (snd (findPartition w label fsType mountPoint timeout))
     = Some EvReadFile
  /\ (count_event is_mount
        (snd (findPartition w label fsType mountPoint timeout)) <= 1)%nat.
Proof.
  destruct (findPartition_trace_shape w label fsType mountPoint timeout)
    as [-> | [n [tail [Hn [-> [Hs [He Hm]]]]]]].
  - cbn. repeat split; auto; lia.
  - destruct (count_waiting_rounds n) as [Hwe Hws].
    pose proof (count_waiting_rounds_mount n) as Hwm.
    rewrite count_event_app in Hwm.
    rewrite !count_event_app, Hwe, Hws, Hs, He. cbn.
    repeat split; auto; lia.
Qed.

(** X2. Once the file-system check has passed, [findPartition] fails
    with the no-devices error exactly when all [timeout + 1] enumerations
    found no device, and with the wrapped enumeration error exactly when
    an enumeration failed after fewer than [timeout + 1] empty ones: that
    failure ends the search at once, whatever is left of the budget. *)
Theorem findPartition_enumeration_errors
    (w : World) (label fsType mountPoint fs : gostring) (timeout : nat) :
  proc_filesystems w = Some fs ->
  strings.Contains fs fsType = true ->
  (fst (findPartition w label fsType mountPoint timeout) = Err ErrNoBlockDevices
   <-> forall k, (k <= timeout)%nat -> getBlockDevs w k = Ok [])
  /\ (forall c,
        fst (findPartition w label fsType mountPoint timeout)
        = Err (ErrGetBlockDevs c)
        <-> exists n, (n <= timeout)%nat
                      /\ (forall j, (j < n)%nat -> getBlockDevs w j = Ok [])
                      /\ getBlockDevs w n = Err c).
Proof.
  intros Hfs Hsup. unfold findPartition. rewrite Hfs, Hsup. cbn [negb].
  destruct (wait_for_devices w timeout 0) as [r tr] eqn:Hw.
  destruct (wait_for_devices_inv w timeout 0 r tr Hw)
    as [n [Hn [_ [Hempty Hlast]]]].
  cbn [Nat.add] in *.
  assert (Hcmp : forall n' c,
             (n' <= timeout)%nat ->
             (forall j, (j < n')%nat -> getBlockDevs w j = Ok []) ->
             getBlockDevs w n' = Err c ->
             getBlockDevs w n <> Ok [] -> n' = n).
  { intros n' c Hn' He' Hc' Hv.
    destruct (Nat.lt_trichotomy n' n) as [Hlt | [Heq | Hgt]]; [|exact Heq|].
    - rewrite (Hempty n' Hlt) in Hc'. discriminate.
    - elim Hv. now apply He'. }
  destruct r as [devices|e|].
  - destruct Hlast as [Hne Hg].
    assert (Hv : getBlockDevs w n <> Ok [])
      by (rewrite Hg; intros H; injection H as ->; contradiction).
    assert (H1 : ~ (forall k, (k <= timeout)%nat -> getBlockDevs w k = Ok []))
      by (intros H; apply Hv; now apply H).
    assert (H2 : forall c,
               ~ (exists n', (n' <= timeout)%nat
                    /\ (forall j, (j < n')%nat -> getBlockDevs w j = Ok [])
                    /\ getBlockDevs w n' = Err c)).
    { intros c [n' [Hn' [He' Hc']]].
      rewrite (Hcmp n' c Hn' He' Hc' Hv), Hg in Hc'. discriminate. }
    destruct (deviceByPartLabel w devices label) as [[device|e|] tr2].
    + destruct (mount_syscall w device mountPoint fsType); cbn [fst];
        (split; [split; [discriminate | intros H; now elim H1]|];
         intros c; split; [discriminate | intros H; now elim (H2 c)]).
    + cbn [fst]. split; [split; [discriminate | intros H; now elim H1]|].
      intros c; split; [discriminate | intros H; now elim (H2 c)].
    + cbn [fst]. split; [split; [discriminate | intros H; now elim H1]|].
      intros c; split; [discriminate | intros H; now elim (H2 c)].
  - cbn [fst]. destruct Hlast as [[-> [-> Hg]] | [c0 [-> Hg]]].
    + split.
      * split; [|reflexivity]. intros _ k Hk.
        destruct (Nat.eq_dec k timeout) as [-> | Hne]; [exact Hg|].
        apply Hempty. lia.
      * intros c. split; [discriminate|].
        intros [n' [Hn' [He' Hc']]].
        destruct (Nat.eq_dec n' timeout) as [-> | Hne]; [congruence|].
        rewrite Hempty in Hc' by lia. discriminate.
    + assert (Hv : getBlockDevs w n <> Ok []) by (rewrite Hg; discriminate).
      split.
      * split; [discriminate|]. intros H. elim Hv. now apply H.
      * intros c. split.
        -- intros H. injection H as <-. now exists n.
        -- intros [n' [Hn' [He' Hc']]].
           rewrite (Hcmp n' c Hn' He' Hc' Hv), Hg in Hc'. congruence.
  - cbn [fst].
    assert (Hv : getBlockDevs w n <> Ok []) by (rewrite Hlast; discriminate).
    split.
    + split; [discriminate|]. intros H. elim Hv. now apply H.
    + intros c. split; [discriminate|].
      intros [n' [Hn' [He' Hc']]].
      rewrite (Hcmp n' c Hn' He' Hc' Hv), Hlast in Hc'. discriminate.
Qed.

Lemma findPartition_enumeration_errors_witness :
  (forall k, (k <= 3)%nat -> getBlockDevs bare_world k = Ok [])
  /\ fst (findPartition failing_world bootPartitionLabel bootPartitionFSType
            bootPartitionMountPoint 60) = Err (ErrGetBlockDevs ErrWalk).
Proof.
  split.
  - apply (proj1 (findPartition_enumeration_errors bare_world
                    bootPartitionLabel bootPartitionFSType
                    bootPartitionMountPoint sample_filesystems 3
                    eq_refl eq_refl)).
    vm_compute. reflexivity.
  - apply (proj2 (findPartition_enumeration_errors failing_world
                    bootPartitionLabel bootPartitionFSType
                    bootPartitionMountPoint sample_filesystems 60
                    eq_refl eq_refl) ErrWalk).
    exists 1%nat. split; [lia|]. split; [|reflexivity].
    intros [|j] Hj; [reflexivity | lia].
Defined.

(* ------------------------------------------------------------------ *)
(** ** What the locator returns, whatever the disks hold *)

Lemma entry_matches_spec (label : gostring) (part : Partition) :
  entry_matches label part = true <->
  IsEmpty part = false /\ decodeLabel (PartNameUTF16 part) = Ok label.
Proof.
  unfold entry_matches. destruct (IsEmpty part); cbn [negb andb].
  - split; [discriminate | intros [H _]; discriminate].
  - destruct (decodeLabel (PartNameUTF16 part)) as [l|e|].
    + rewrite gostring_eqb_eq. split.
      * intros ->. auto.
      * intros [_ H]. now injection H.
    + split; [discriminate | intros [_ H]; discriminate].
    + split; [discriminate | intros [_ H]; discriminate].
Qed.

Lemma partition_node_longer (d p device : gostring) :
  partition_node d p device -> nonempty p = true ->
  (List.length d < List.length device)%nat.
Proof.
  intros [suffix [-> [s1 [s2 ->]]]] Hp. rewrite !length_app.
  destruct p; [discriminate|]. cbn. lia.
Qed.

Lemma skipped_no_match (w : World) (label : gostring) (l : list gostring) :
  Forall (skipped w label) l -> Forall (no_match w label) l.
Proof. intros H. eapply Forall_impl; [|exact H]. now intros d [Hn _]. Qed.

(** X4. When [deviceByPartLabel] returns a device, that device is an
    entry of the list which extends, by a suffix holding the decimal
    partition number, the path of the first listed disk that could be
    opened and parsed and has a non-empty entry whose name decodes to the
    label exactly; the number is the 1-based position of the first such
    entry; and the device returned is never the disk itself. *)
Theorem deviceByPartLabel_sound
    (w : World) (devices : list gostring) (label device : gostring) :
  fst (deviceByPartLabel w devices label) = Ok device ->
  exists pre d post table i part,
    devices = pre ++ d :: post
    /\ Forall (no_match w label) pre
    /\ inspect w d = Some table
    /\ first_entry label table i part
    /\ IsEmpty part = false
    /\ decodeLabel (PartNameUTF16 part) = Ok label
    /\ In device devices
    /\ partition_node d (strconv.Itoa (i + 1)) device
    /\ device <> d.
Proof.
  destruct (scan_devices_outcome w devices label)
    as [(_ & st & Hs & Hd & Hp & _)
       | [(pre & d & post & table & i & part & st & Hdev & Hpre & Hi
           & Hf & Hs & Hd & Hp & _)
         | (pre & d & post & st & Hdev & Hpre & Hpanic & Hs & _)]];
    destruct (deviceByPartLabel_unfold w devices label _ _ Hs) as [_ Hfst];
    rewrite Hfst.
  - rewrite Hd. cbn. discriminate.
  - rewrite Hd, Hp, (inspect_nonempty w d table Hi), Itoa_nonempty.
    cbn [andb].
    destruct (resolve devices d (strconv.Itoa (i + 1))) as [dev|] eqn:Hr;
      [|discriminate].
    intros H. injection H as ->.
    apply resolve_some in Hr. destruct Hr as [p1 [p2 [Hsplit [Hnode _]]]].
    exists pre, d, post, table, i, part.
    destruct (proj1 (entry_matches_spec label part) (proj1 (proj2 Hf)))
      as [He Hl].
    repeat split; try assumption; try apply Hf.
    + now apply skipped_no_match.
    + rewrite Hsplit. apply in_or_app. right. now left.
    + intros ->.
      pose proof (partition_node_longer d _ d Hnode (Itoa_nonempty _)). lia.
  - discriminate.
Qed.

Lemma deviceByPartLabel_sound_witness :
  exists pre d post table i part,
    [go "/dev/sda"; go "/dev/sda1"; go "/dev/sda2"] = pre ++ d :: post
    /\ Forall (no_match disk_world bootPartitionLabel) pre
    /\ inspect disk_world d = Some table
    /\ first_entry bootPartitionLabel table i part
    /\ IsEmpty part = false
    /\ decodeLabel (PartNameUTF16 part) = Ok bootPartitionLabel
    /\ In (go "/dev/sda2") [go "/dev/sda"; go "/dev/sda1"; go "/dev/sda2"]
    /\ partition_node d (strconv.Itoa (i + 1)) (go "/dev/sda2")
    /\ go "/dev/sda2" <> d.
Proof.
  apply (deviceByPartLabel_sound disk_world
           [go "/dev/sda"; go "/dev/sda1"; go "/dev/sda2"]
           bootPartitionLabel (go "/dev/sda2")).
  vm_compute. reflexivity.
Defined.

Lemma skipped_excludes (w : World) (label d : gostring) :
  skipped w label d ->
  (forall table i part, inspect w d = Some table ->
                        first_entry label table i part -> False)
  /\ panics w d = false.
Proof.
  intros [Hno Hq]. split; [|exact Hq].
  intros table i part Hi [Hn [Hm _]]. specialize (Hno table Hi).
  rewrite forallb_forall in Hno.
  specialize (Hno part (nth_error_In _ _ Hn)). rewrite Hm in Hno.
  discriminate.
Qed.

(** X5. [deviceByPartLabel] fails with the no-device-with-label error
    exactly when the scan passes over every listed device (none has a
    matching entry, none makes [gpt.ReadTable] panic); it fails with the
    cannot-find-partition error exactly when, the devices before it being
    passed over, some disk has a matching entry but no entry of the list
    is that disk's path followed by a suffix holding the partition
    number, and the error then names that number, that disk and the
    whole list. *)
Theorem deviceByPartLabel_errors
    (w : World) (devices : list gostring) (label : gostring) :
  (fst (deviceByPartLabel w devices label) = Err (ErrNoDeviceWithLabel label)
   <-> Forall (skipped w label) devices)
  /\ (forall p d l,
        fst (deviceByPartLabel w devices label)
        = Err (ErrCannotFindPartition p d l) <->
        l = devices
        /\ Forall (fun x => ~ partition_node d p x) devices
        /\ exists pre post table i part,
             devices = pre ++ d :: post
             /\ Forall (skipped w label) pre
             /\ inspect w d = Some table
             /\ first_entry label table i part
             /\ p = strconv.Itoa (i + 1)).
Proof.
  assert (Hmid : forall pre d post,
             devices = pre ++ d :: post ->
             Forall (skipped w label) devices -> skipped w label d).
  { intros pre d post Hdev Hall. rewrite Hdev in Hall.
    apply Forall_app in Hall. destruct Hall as [_ Hall]. now inversion Hall. }
  destruct (scan_devices_outcome w devices label)
    as [(Hall & st & Hs & Hd & Hp & _)
       | [(pre & d & post & table & i & part & st & Hdev & Hpre & Hi
           & Hf & Hs & Hd & Hp & _)
         | (pre & d & post & st & Hdev & Hpre & Hpanic & Hs & _)]];
    destruct (deviceByPartLabel_unfold w devices label _ _ Hs) as [_ Hfst];
    rewrite Hfst.
  - rewrite Hd. cbn [nonempty andb]. split.
    + split; auto.
    + intros p d l. split; [discriminate|].
      intros (_ & _ & pre & post & table & i & part & Hdev & _ & Hi & Hf & _).
      exfalso.
      exact (proj1 (skipped_excludes w label d (Hmid pre d post Hdev Hall))
               table i part Hi Hf).
  - assert (Hnot : ~ Forall (skipped w label) devices).
    { intros Hall.
      exact (proj1 (skipped_excludes w label d (Hmid pre d post Hdev Hall))
               table i part Hi Hf). }
    assert (Hsame : forall pre' d' post' table' i' part',
               devices = pre' ++ d' :: post' ->
               Forall (skipped w label) pre' ->
               inspect w d' = Some table' ->
               first_entry label table' i' part' ->
               d' = d /\ strconv.Itoa (i' + 1) = strconv.Itoa (i + 1)).
    { intros pre' d' post' table' i' part' Hdev' Hpre' Hi' Hf'.
      destruct (scan_devices_at_first w label pre' d' post' table' i' part'
                  Hpre' Hi' Hf') as [st' [Hs' [Hd' [Hp' _]]]].
      rewrite <- Hdev', Hs in Hs'. injection Hs' as <-.
      split; congruence. }
    rewrite Hd, Hp, (inspect_nonempty w d table Hi), Itoa_nonempty.
    cbn [andb].
    destruct (resolve devices d (strconv.Itoa (i + 1))) as [dev|] eqn:Hr.
    + split.
      * split; [discriminate | intros H; contradiction].
      * intros p' d' l. split; [discriminate|].
        intros (_ & Hnone & pre' & post' & table' & i' & part'
                & Hdev' & Hpre' & Hi' & Hf' & Hp').
        exfalso. apply resolve_some in Hr.
        destruct Hr as [p1 [p2 [Hsplit [Hnode _]]]].
        destruct (Hsame _ _ _ _ _ _ Hdev' Hpre' Hi' Hf') as [-> Hpp].
        rewrite Hp', Hpp in Hnone.
        rewrite Forall_forall in Hnone. apply (Hnone dev); [|exact Hnode].
        rewrite Hsplit. apply in_or_app. right. now left.
    + split.
      * split; [discriminate | intros H; contradiction].
      * intros p' d' l. split.
        -- intros H. injection H as <- <- <-. split; [reflexivity|].
           split; [now apply resolve_none|].
           now exists pre, post, table, i, part.
        -- intros (-> & _ & pre' & post' & table' & i' & part'
                   & Hdev' & Hpre' & Hi' & Hf' & Hp').
           destruct (Hsame _ _ _ _ _ _ Hdev' Hpre' Hi' Hf') as [-> Hpp].
           rewrite Hp', Hpp. reflexivity.
  - split.
    + split; [discriminate|]. intros Hall. exfalso.
      pose proof (proj2 (skipped_excludes w label d
                           (Hmid pre d post Hdev Hall))) as Hq.
      congruence.
    + intros p' d' l. split; [discriminate|].
      intros (_ & _ & pre' & post' & table' & i' & part'
              & Hdev' & Hpre' & Hi' & Hf' & _).
      exfalso.
      destruct (scan_devices_at_first w label pre' d' post' table' i' part'
                  Hpre' Hi' Hf') as [st' [Hs' _]].
      rewrite <- Hdev', Hs in Hs'. discriminate.
Qed.

Lemma deviceByPartLabel_errors_witness :
  Forall (skipped bare_world bootPartitionLabel) [go "/dev/sda"]
  /\ [go "/dev/sda"] = [go "/dev/sda"]
  /\ Forall (fun x => ~ partition_node (go "/dev/sda") (go "1") x)
            [go "/dev/sda"].
Proof.
  split.
  - apply (proj1 (deviceByPartLabel_errors bare_world [go "/dev/sda"]
                    bootPartitionLabel)).
    vm_compute. reflexivity.
  - assert (H : fst (deviceByPartLabel early_world [go "/dev/sda"]
                       bootPartitionLabel)
                = Err (ErrCannotFindPartition (go "1") (go "/dev/sda")
                         [go "/dev/sda"]))
      by (vm_compute; reflexivity).
    destruct (proj1 (proj2 (deviceByPartLabel_errors early_world
                              [go "/dev/sda"] bootPartitionLabel)
                       (go "1") (go "/dev/sda") [go "/dev/sda"]) H)
      as [H1 [H2 _]].
    split; assumption.
Defined.

(* ------------------------------------------------------------------ *)
(** ** Attempts and handles of a whole scan *)

Lemma scan_body_opened (w : World) (device label : gostring) (st : locals) :
  opened (trace st) = filter (os_Open w) (attempted (trace st)) ->
  opened (trace (fst (scan_body w device label st)))
  = filter (os_Open w) (attempted (trace (fst (scan_body w device label st)))).
Proof.
  intros Hinv.
  assert (Hok : os_Open w device = true ->
                opened (trace st ++ [EvOpen device])
                = filter (os_Open w) (attempted (trace st ++ [EvOpen device]))).
  { intros Ho. unfold opened, attempted in *.
    rewrite !flat_map_app, filter_app, Hinv. cbn. now rewrite Ho. }
  unfold scan_body. destruct (os_Open w device) eqn:Ho; cbn [negb].
  - specialize (Hok eq_refl).
    destruct (seek_fails w device); [exact Hok|].
    destruct (read_table w device) as [table| |]; [|exact Hok|exact Hok].
    destruct (scan_partitions _ _ _ _ _ _) as [[d p]|]; [|exact Hok].
    destruct (nonempty d && nonempty p); exact Hok.
  - cbn [fst trace]. unfold opened, attempted in *.
    rewrite !flat_map_app, filter_app, Hinv. cbn. rewrite Ho.
    now rewrite !app_nil_r.
Qed.

Lemma scan_devices_opened (w : World) (label : gostring)
    (devices : list gostring) :
  forall st,
    opened (trace st) = filter (os_Open w) (attempted (trace st)) ->
    opened (trace (fst (scan_devices w devices label st)))
    = filter (os_Open w)
        (attempted (trace (fst (scan_devices w devices label st)))).
Proof.
  induction devices as [|device rest IH]; intros st Hinv; [exact Hinv|].
  cbn [scan_devices].
  pose proof (scan_body_opened w device label st Hinv) as Hb.
  destruct (scan_body w device label st) as [st' [| |]]; cbn [fst] in *;
    [now apply IH | exact Hb | exact Hb].
Qed.

Lemma closes_only (l : list gostring) :
  opened (map EvClose l) = [] /\ attempted (map EvClose l) = []
  /\ closed (map EvClose l) = l.
Proof.
  unfold opened, attempted, closed.
  induction l as [|x l [H1 [H2 H3]]]; cbn; [auto|].
  rewrite H1, H2, H3. auto.
Qed.

(** X6. In every run of [deviceByPartLabel], the devices attempted are
    an initial part of the list, each attempted once and in list order
    (the whole list unless a match ended the scan); a handle is opened
    for exactly those of them that [os.Open] accepts; and at the return
    every handle opened has been closed once, the last opened first. *)
Theorem deviceByPartLabel_handles
    (w : World) (devices : list gostring) (label : gostring) :
  (exists rest,
      devices = attempted (snd (deviceByPartLabel w devices label)) ++ rest)
  /\ opened (snd (deviceByPartLabel w devices label))
     = filter (os_Open w)
         (attempted (snd (deviceByPartLabel w devices label)))
  /\ closed (snd (deviceByPartLabel w devices label))
     = rev (opened (snd (deviceByPartLabel w devices label))).
Proof.
  destruct (handles_closed_at_return w devices label) as [tr [Hsnd [Hcl Htr]]].
  rewrite Hsnd.
  destruct (closes_only (rev (opened tr))) as [Ho [Ha Hc]].
  assert (Hopened : opened (tr ++ map EvClose (rev (opened tr))) = opened tr).
  { unfold opened in *. rewrite flat_map_app, Ho. apply app_nil_r. }
  assert (Hatt : attempted (tr ++ map EvClose (rev (opened tr)))
                 = attempted tr).
  { unfold attempted in *. rewrite flat_map_app, Ha. apply app_nil_r. }
  assert (Hclosed : closed (tr ++ map EvClose (rev (opened tr)))
                    = rev (opened tr)).
  { unfold closed in *. rewrite flat_map_app, Hcl, Hc. reflexivity. }
  rewrite Hopened, Hatt, Hclosed. split; [|split; [|reflexivity]].
  - subst tr.
    destruct (scan_devices_outcome w devices label)
      as [(_ & st & Hs & _ & _ & Ha')
         | [(pre & d & post & table & i & part & st & Hdev & _ & _ & _
             & Hs & _ & _ & Ha')
           | (pre & d & post & st & Hdev & _ & _ & Hs & Ha')]];
      rewrite Hs; cbn [fst].
    + exists []. now rewrite Ha', app_nil_r.
    + exists post. rewrite Ha', Hdev, <- app_assoc. reflexivity.
    + exists post. rewrite Ha', Hdev, <- app_assoc. reflexivity.
  - subst tr. apply scan_devices_opened. reflexivity.
Qed.

(* ------------------------------------------------------------------ *)
(** ** The stages of [findPartition] *)

(** A successful [findPartition], taken apart. *)
Lemma findPartition_ok_inv
    (w : World) (label fsType mountPoint : gostring) (timeout : nat) :
  fst (findPartition w label fsType mountPoint timeout) = Ok tt ->
  exists fs devices device tr,
    proc_filesystems w = Some fs
    /\ strings.Contains fs fsType = true
    /\ fst (wait_for_devices w timeout 0) = Ok devices
    /\ fst (deviceByPartLabel w devices label) = Ok device
    /\ mount_syscall w device mountPoint fsType = true
    /\ snd (findPartition w label fsType mountPoint timeout)
       = tr ++ [EvMount device mountPoint fsType]
    /\ count_event is_mount tr = 0%nat.
Proof.
  unfold findPartition.
  destruct (proc_filesystems w) as [fs|]; [|discriminate].
  destruct (strings.Contains fs fsType) eqn:Hc; cbn [negb]; [|discriminate].
  destruct (wait_for_devices w timeout 0) as [r tr] eqn:Hw.
  destruct (wait_for_devices_inv w timeout 0 r tr Hw) as [n [_ [-> _]]].
  destruct r as [devices|e|]; [|discriminate|discriminate].
  pose proof (deviceByPartLabel_trace w devices label) as Hh.
  destruct (deviceByPartLabel w devices label) as [r2 tr2] eqn:Hd.
  cbn [snd] in Hh.
  destruct r2 as [device|e|]; [|discriminate|discriminate].
  destruct (mount_syscall w device mountPoint fsType) eqn:Hm; [|discriminate].
  intros _. exists fs, devices, device.
  exists (EvReadFile :: (waiting_rounds n ++ [EvEnumerate]) ++ tr2).
  rewrite Hd. cbn [fst snd].
  split; [reflexivity|]. split; [exact Hc|]. split; [reflexivity|].
  split; [reflexivity|]. split; [exact Hm|]. split.
  - rewrite app_comm_cons, app_assoc. reflexivity.
  - change (EvReadFile :: (waiting_rounds n ++ [EvEnumerate]) ++ tr2)
      with ([EvReadFile] ++ (waiting_rounds n ++ [EvEnumerate]) ++ tr2).
    rewrite !count_event_app.
    pose proof (count_waiting_rounds_mount n) as Hwm.
    rewrite count_event_app in Hwm.
    rewrite (handle_events_count is_mount tr2); [cbn in *; lia | | exact Hh].
    now intros [].
Qed.

(** X7. [findPartition] succeeds exactly when all its stages do: the
    file-system check passes, the waiting loop ends with devices,
    [deviceByPartLabel] returns a device for them and mounting that
    device at the mount point with the file-system type succeeds; the
    mount is then its last event and the only mount.  When the loop ends
    with devices but [deviceByPartLabel] fails, that error is returned
    wrapped with the label, and nothing is mounted; when the mount fails,
    the error names the device. *)
Theorem findPartition_stages
    (w : World) (label fsType mountPoint : gostring) (timeout : nat) :
  (fst (findPartition w label fsType mountPoint timeout) = Ok tt
   <-> exists fs devices device,
         proc_filesystems w = Some fs
         /\ strings.Contains fs fsType = true
         /\ fst (wait_for_devices w timeout 0) = Ok devices
         /\ fst (deviceByPartLabel w devices label) = Ok device
         /\ mount_syscall w device mountPoint fsType = true)
  /\ (fst (findPartition w label fsType mountPoint timeout) = Ok tt ->
      exists device tr,
        snd (findPartition w label fsType mountPoint timeout)
        = tr ++ [EvMount device mountPoint fsType]
        /\ count_event is_mount tr = 0%nat)
  /\ (forall fs devices,
        proc_filesystems w = Some fs ->
        strings.Contains fs fsType = true ->
        fst (wait_for_devices w timeout 0) = Ok devices ->
        match fst (deviceByPartLabel w devices label) with
        | Ok device =>
            fst (findPartition w label fsType mountPoint timeout)
            = if mount_syscall w device mountPoint fsType then Ok tt
              else Err (ErrMount device ErrMountSyscall)
        | Err e =>
            fst (findPartition w label fsType mountPoint timeout)
            = Err (ErrGetDevice label e)
            /\ count_event is_mount
                 (snd (findPartition w label fsType mountPoint timeout))
               = 0%nat
        | Panic => fst (findPartition w label fsType mountPoint timeout) = Panic
        end).
Proof.
  assert (Hstage : forall fs devices,
             proc_filesystems w = Some fs ->
             strings.Contains fs fsType = true ->
             fst (wait_for_devices w timeout 0) = Ok devices ->
             match fst (deviceByPartLabel w devices label) with
             | Ok device =>
                 fst (findPartition w label fsType mountPoint timeout)
                 = if mount_syscall w device mountPoint fsType then Ok tt
                   else Err (ErrMount device ErrMountSyscall)
             | Err e =>
                 fst (findPartition w label fsType mountPoint timeout)
                 = Err (ErrGetDevice label e)
                 /\ count_event is_mount
                      (snd (findPartition w label fsType mountPoint timeout))
                    = 0%nat
             | Panic =>
                 fst (findPartition w label fsType mountPoint timeout) = Panic
             end).
  { intros fs devices Hfs Hc Hw. unfold findPartition. rewrite Hfs, Hc.
    cbn [negb].
    destruct (wait_for_devices w timeout 0) as [r tr] eqn:Hwd.
    cbn [fst] in Hw. subst r.
    destruct (wait_for_devices_inv w timeout 0 _ tr Hwd) as [n [_ [-> _]]].
    pose proof (deviceByPartLabel_trace w devices label) as Hh.
    destruct (deviceByPartLabel w devices label) as [r2 tr2].
    cbn [fst snd] in *. destruct r2 as [device|e|].
    - destruct (mount_syscall w device mountPoint fsType); reflexivity.
    - cbn [fst snd]. split; [reflexivity|].
      change (EvReadFile :: (waiting_rounds n ++ [EvEnumerate]) ++ tr2)
        with ([EvReadFile] ++ (waiting_rounds n ++ [EvEnumerate]) ++ tr2).
      rewrite !count_event_app.
      pose proof (count_waiting_rounds_mount n) as Hwm.
      rewrite count_event_app in Hwm.
      rewrite (handle_events_count is_mount tr2); [cbn in *; lia | | exact Hh].
      now intros [].
    - reflexivity. }
  split; [|split; [|exact Hstage]].
  - split.
    + intros H.
      destruct (findPartition_ok_inv w label fsType mountPoint timeout H)
        as (fs & devices & device & tr & H1 & H2 & H3 & H4 & H5 & _).
      now exists fs, devices, device.
    + intros (fs & devices & device & H1 & H2 & H3 & H4 & H5).
      pose proof (Hstage fs devices H1 H2 H3) as Hs.
      rewrite H4, H5 in Hs. exact Hs.
  - intros H.
    destruct (findPartition_ok_inv w label fsType mountPoint timeout H)
      as (fs & devices & device & tr & _ & _ & _ & _ & _ & H6 & H7).
    now exists device, tr.
Qed.

Lemma findPartition_stages_witness :
  (exists device tr,
      snd (findPartition disk_world bootPartitionLabel bootPartitionFSType
             bootPartitionMountPoint 60)
      = tr ++ [EvMount device bootPartitionMountPoint bootPartitionFSType]
      /\ count_event is_mount tr = 0%nat)
  /\ fst (findPartition early_world bootPartitionLabel bootPartitionFSType
            bootPartitionMountPoint 60)
     = Err (ErrGetDevice bootPartitionLabel
              (ErrCannotFindPartition (go "1") (go "/dev/sda")
                 [go "/dev/sda"])).
Proof.
  split.
  - apply (proj1 (proj2 (findPartition_stages disk_world bootPartitionLabel
                           bootPartitionFSType bootPartitionMountPoint 60))).
    vm_compute. reflexivity.
  - pose proof (proj2 (proj2 (findPartition_stages early_world
                  bootPartitionLabel bootPartitionFSType
                  bootPartitionMountPoint 60))
                  sample_filesystems [go "/dev/sda"] eq_refl eq_refl eq_refl)
      as H.
    exact (proj1 H).
Defined.

(** X8. The two entry points sleep at most 60 times; when
    [mountBootPartition] succeeds, its last event, and only mount, is the
    successful mount at "boot" with type "vfat" of the device that
    [deviceByPartLabel] returned, for the label "STBOOT", on the devices
    its waiting loop (budget 60) ended with; when [mountDataPartition]
    succeeds, it is the mount at "data" with type "ext4" of the device
    returned for "STDATA" on the devices of its own waiting loop. *)
Theorem mount_entry_points (w : World) :
  (count_event is_sleep (snd (mountBootPartition w)) <= 60)%nat
  /\ (count_event is_sleep (snd (mountDataPartition w)) <= 60)%nat
  /\ (fst (mountBootPartition w) = Ok tt ->
      exists devices device tr,
        fst (wait_for_devices w 60 0) = Ok devices
        /\ fst (deviceByPartLabel w devices (go "STBOOT")) = Ok device
        /\ mount_syscall w device (go "boot") (go "vfat") = true
        /\ snd (mountBootPartition w)
           = tr ++ [EvMount device (go "boot") (go "vfat")]
        /\ count_event is_mount tr = 0%nat)
  /\ (fst (mountDataPartition w) = Ok tt ->
      exists devices device tr,
        fst (wait_for_devices w 60 0) = Ok devices
        /\ fst (deviceByPartLabel w devices (go "STDATA")) = Ok device
        /\ mount_syscall w device (go "data") (go "ext4") = true
        /\ snd (mountDataPartition w)
           = tr ++ [EvMount device (go "data") (go "ext4")]
        /\ count_event is_mount tr = 0%nat).
Proof.
  assert (Hsleep : forall label fsType mountPoint,
             (count_event is_sleep
                (snd (findPartition w label fsType mountPoint 60)) <= 60)%nat).
  { intros label fsType mountPoint.
    destruct (findPartition_trace_shape w label fsType mountPoint 60)
      as [-> | [n [tail [Hn [-> [Hs _]]]]]]; [cbn; lia|].
    destruct (count_waiting_rounds n) as [_ Hws].
    rewrite !count_event_app, Hws, Hs. cbn. lia. }
  unfold mountBootPartition, mountDataPartition.
  split; [apply Hsleep|]. split; [apply Hsleep|]. split.
  - intros H.
    destruct (findPartition_ok_inv w _ _ _ _ H)
      as (fs & devices & device & tr & _ & _ & H3 & H4 & H5 & H6 & H7).
    now exists devices, device, tr.
  - intros H.
    destruct (findPartition_ok_inv w _ _ _ _ H)
      as (fs & devices & device & tr & _ & _ & H3 & H4 & H5 & H6 & H7).
    now exists devices, device, tr.
Qed.

Lemma mount_entry_points_witness :
  exists devices device tr,
    fst (wait_for_devices disk_world 60 0) = Ok devices
    /\ fst (deviceByPartLabel disk_world devices (go "STDATA")) = Ok device
    /\ mount_syscall disk_world device (go "data") (go "ext4") = true
    /\ snd (mountDataPartition disk_world)
       = tr ++ [EvMount device (go "data") (go "ext4")]
    /\ count_event is_mount tr = 0%nat.
Proof.
  apply (proj2 (proj2 (proj2 (mount_entry_points disk_world)))).
  vm_compute. reflexivity.
Defined.

(* ------------------------------------------------------------------ *)
(** ** More on the label codec *)

Lemma ascii_unit (c : byte) :
  byte_val c < 0x80 -> unit_to_utf8 (code_unit c NUL) = [c].
Proof.
  destruct c; intros H;
    first [ reflexivity | exfalso; vm_compute in H; discriminate ].
Qed.

Lemma ascii_units (s : gostring) :
  Forall (fun c => byte_val c < 0x80) s ->
  units_to_utf8 (flat_map (fun c => [c; NUL]) s) = s.
Proof.
  unfold units_to_utf8. induction 1 as [|c s Hc _ IH]; [reflexivity|].
  cbn [flat_map app code_units]. rewrite (ascii_unit c Hc), IH. reflexivity.
Qed.

Lemma ascii_length_even (s : gostring) :
  Nat.even (List.length (flat_map (fun c => [c; NUL]) s)) = true.
Proof.
  induction s as [|c s IH]; [reflexivity|]. cbn [flat_map app List.length].
  exact IH.
Qed.

Section TrimMore.
Variable cutset : gostring.

Lemma TrimLeft_app (s r : gostring) :
  (Forall (cut cutset) s /\ strings.TrimLeft s cutset = [])
  \/ strings.TrimLeft (s ++ r) cutset = strings.TrimLeft s cutset ++ r.
Proof.
  induction s as [|c s IH].
  - left. split; [constructor | reflexivity].
  - cbn [app strings.TrimLeft].
    destruct (strings.in_cutset cutset c) eqn:Hc.
    + destruct IH as [[Hall Hnil] | IH]; [left | right; exact IH].
      split; [now constructor | exact Hnil].
    + right. reflexivity.
Qed.

Lemma TrimRight_drop (s r : gostring) :
  Forall (cut cutset) r ->
  strings.TrimRight (s ++ r) cutset = strings.TrimRight s cutset.
Proof.
  intros Hr. unfold strings.TrimRight.
  rewrite rev_app_distr, TrimLeft_drop by now apply Forall_rev.
  reflexivity.
Qed.

(** Bytes of the cutset added at either end do not change [Trim]. *)
Lemma Trim_drop (l s r : gostring) :
  Forall (cut cutset) l -> Forall (cut cutset) r ->
  strings.Trim (l ++ s ++ r) cutset = strings.Trim s cutset.
Proof.
  intros Hl Hr. unfold strings.Trim. rewrite (TrimLeft_drop cutset l) by exact Hl.
  destruct (TrimLeft_app s r) as [[Hall Hnil] | ->].
  - rewrite Hnil.
    replace (strings.TrimLeft (s ++ r) cutset) with (@nil byte); [reflexivity|].
    symmetry. replace (s ++ r) with ((s ++ r) ++ []) by apply app_nil_r.
    rewrite TrimLeft_drop; [reflexivity|]. apply Forall_app. now split.
  - now apply TrimRight_drop.
Qed.

End TrimMore.

Lemma Forall_cut_repeat (k : nat) : Forall (cut [NUL]) (repeat NUL k).
Proof. apply Forall_cut_NUL, Forall_repeat_NUL. Qed.

Lemma repeat_even (k : nat) :
  Nat.even (List.length (repeat NUL (2 * k))) = true.
Proof. rewrite repeat_length, Nat.even_mul. reflexivity. Qed.

(** X9. A name field that holds an ASCII string (every byte below 0x80,
    neither the first nor the last byte NUL) as UTF-16LE, followed by any
    number of NUL code units, decodes to that string; so a used entry
    with such a name carries a label exactly when the label is that
    string, byte for byte. *)
Theorem decodeLabel_ascii (s : gostring) (k : nat) :
  Forall (fun c => byte_val c < 0x80) s ->
  (forall t, s <> NUL :: t) ->
  (forall t, s <> t ++ [NUL]) ->
  decodeLabel (ascii_field s k) = Ok s
  /\ forall label,
       entry_matches label
         {| IsEmpty := false; PartNameUTF16 := ascii_field s k |} = true
       <-> label = s.
Proof.
  intros Hascii Hhd Hlast.
  assert (Hdec : decodeLabel (ascii_field s k) = Ok s).
  { rewrite decodeLabel_eq. unfold ascii_field.
    rewrite length_app, Nat.odd_add, <- !Nat.negb_even, ascii_length_even,
      repeat_even. cbn [negb xorb].
    rewrite units_to_utf8_app by apply ascii_length_even.
    rewrite ascii_units by exact Hascii. rewrite units_to_utf8_padding.
    f_equal. apply Trim_padding.
    - intros x t ->. apply in_cutset_NUL_false. intros ->. now apply (Hhd t).
    - intros x t ->. apply in_cutset_NUL_false. intros ->. now apply (Hlast t).
    - apply Forall_cut_repeat. }
  split; [exact Hdec|].
  intros label. unfold entry_matches. cbn [IsEmpty PartNameUTF16 negb andb].
  rewrite Hdec, gostring_eqb_eq. split; congruence.
Qed.

Lemma decodeLabel_ascii_witness :
  decodeLabel (ascii_field (go "STBOOT") 30) = Ok (go "STBOOT").
Proof.
  apply (decodeLabel_ascii (go "STBOOT") 30).
  - repeat constructor.
  - intros t H. discriminate.
  - intros t H. apply (f_equal (@rev byte)) in H.
    rewrite rev_app_distr in H. discriminate.
Defined.

(** X10. NUL code units added before or behind an input do not change
    what [decodeLabel] returns, error included; so a name of NULs only
    decodes to the empty string. *)
Theorem decodeLabel_padding (b : list byte) (k : nat) :
  decodeLabel (b ++ repeat NUL (2 * k)) = decodeLabel b
  /\ decodeLabel (repeat NUL (2 * k) ++ b) = decodeLabel b
  /\ decodeLabel (repeat NUL (2 * k)) = Ok [].
Proof.
  assert (Hback : decodeLabel (b ++ repeat NUL (2 * k)) = decodeLabel b).
  { rewrite !decodeLabel_eq.
    rewrite length_app, Nat.odd_add, <- (Nat.negb_even (List.length (repeat _ _))),
      repeat_even. cbn [negb]. rewrite xorb_false_r.
    destruct (Nat.odd (List.length b)) eqn:Hodd; [reflexivity|].
    rewrite units_to_utf8_app
      by (rewrite <- Nat.negb_odd, Hodd; reflexivity).
    rewrite units_to_utf8_padding. f_equal.
    apply (Trim_drop [NUL] [] (units_to_utf8 b) (repeat NUL k));
      [constructor | apply Forall_cut_repeat]. }
  assert (Hfront : decodeLabel (repeat NUL (2 * k) ++ b) = decodeLabel b).
  { rewrite !decodeLabel_eq.
    rewrite length_app, Nat.odd_add, <- (Nat.negb_even (List.length (repeat _ _))),
      repeat_even. cbn [negb xorb].
    destruct (Nat.odd (List.length b)) eqn:Hodd; [reflexivity|].
    rewrite units_to_utf8_app by apply repeat_even.
    rewrite units_to_utf8_padding. f_equal.
    rewrite <- (app_nil_r (units_to_utf8 b)) at 1.
    apply (Trim_drop [NUL] (repeat NUL k) (units_to_utf8 b) []);
      [apply Forall_cut_repeat | constructor]. }
  split; [exact Hback|]. split; [exact Hfront|].
  clear Hback Hfront.
  rewrite decodeLabel_eq, <- Nat.negb_even, repeat_even. cbn [negb].
  rewrite units_to_utf8_padding. f_equal.
  rewrite <- (app_nil_r (repeat NUL k)).
  change (repeat NUL k ++ []) with (repeat NUL k ++ [] ++ []).
  rewrite (Trim_drop [NUL] (repeat NUL k) [] []);
    [reflexivity | apply Forall_cut_repeat | constructor].
Qed.

Lemma unit_to_utf8_length (lo hi : byte) :
  (List.length (unit_to_utf8 (code_unit lo hi)) <= 3)%nat.
Proof.
  unfold unit_to_utf8, lone_rune.
  pose proof (unit_reads_back_all lo hi) as H. unfold unit_reads_back in H.
  cbv zeta in H.
  destruct (utf16.IsSurrogate (code_unit lo hi)); [cbn; lia|].
  cbn [orb] in H.
  destruct (utf8.EncodeRune (code_unit lo hi)) as [|a [|b [|c [|e l]]]];
    try discriminate; cbn; lia.
Qed.

Lemma units_to_utf8_length (b : list byte) :
  (2 * List.length (units_to_utf8 b) <= 3 * List.length b)%nat.
Proof.
  unfold units_to_utf8.
  induction b as [|x|lo hi b IH] using list_pair_ind; cbn [code_units flat_map].
  - cbn. lia.
  - cbn. lia.
  - rewrite length_app. pose proof (unit_to_utf8_length lo hi).
    cbn [List.length]. lia.
Qed.

(** X11. The string [decodeLabel] returns holds at most three bytes for
    each code unit of the input: twice its length is at most three times
    the input's length (at most 108 bytes for a 72-byte name field). *)
Theorem decodeLabel_length (b : list byte) (s : gostring) :
  decodeLabel b = Ok s ->
  (2 * List.length s <= 3 * List.length b)%nat.
Proof.
  rewrite decodeLabel_eq.
  destruct (Nat.odd (List.length b)); [discriminate|].
  intros H. injection H as <-.
  destruct (Trim_split [NUL] (units_to_utf8 b)) as [l [r [Hs _]]].
  pose proof (units_to_utf8_length b) as Hlen.
  rewrite Hs in Hlen at 1. rewrite !length_app in Hlen. lia.
Qed.

Lemma decodeLabel_length_witness :
  (2 * List.length [xe2; x82; xac] <= 3 * List.length [xac; x20; x00; x00])%nat.
Proof.
  apply (decodeLabel_length [xac; x20; x00; x00] [xe2; x82; xac]).
  vm_compute. reflexivity.
Defined.

Lemma entry_never_matches_NUL_end (label : gostring) (part : Partition) :
  (exists t, label = NUL :: t \/ label = t ++ [NUL]) ->
  entry_matches label part = false.
Proof.
  intros [t Hl]. unfold entry_matches.
  destruct (IsEmpty part); [reflexivity|]. cbn [negb andb].
  rewrite decodeLabel_eq.
  destruct (Nat.odd (List.length (PartNameUTF16 part))); [reflexivity|].
  destruct (gostring_eqb _ label) eqn:He; [|reflexivity].
  apply gostring_eqb_eq in He. exfalso.
  assert (Hnul : strings.in_cutset [NUL] NUL = true) by reflexivity.
  destruct Hl as [-> | ->].
  - apply Trim_head in He. congruence.
  - apply Trim_last in He. congruence.
Qed.

(** X12. A label that starts or ends with a NUL byte is never found:
    [decodeLabel] trims both ends, so no entry can carry it;
    [deviceByPartLabel] never returns a device or the
    cannot-find-partition error for it, and fails with the
    no-device-with-label error unless [gpt.ReadTable] panics on a listed
    device (then it panics). *)
Theorem NUL_ended_label_not_found
    (w : World) (devices : list gostring) (label : gostring) :
  (exists t, label = NUL :: t \/ label = t ++ [NUL]) ->
  (forall device, fst (deviceByPartLabel w devices label) <> Ok device)
  /\ (forall p d l,
        fst (deviceByPartLabel w devices label)
        <> Err (ErrCannotFindPartition p d l))
  /\ (fst (deviceByPartLabel w devices label)
      = Err (ErrNoDeviceWithLabel label)
      \/ (fst (deviceByPartLabel w devices label) = Panic
          /\ exists d, In d devices /\ panics w d = true))
  /\ (Forall (fun d => panics w d = false) devices ->
      fst (deviceByPartLabel w devices label)
      = Err (ErrNoDeviceWithLabel label)).
Proof.
  intros Hl.
  assert (Hnever : forall d table i part,
             inspect w d = Some table -> first_entry label table i part ->
             False).
  { intros d table i part _ [_ [Hm _]].
    rewrite (entry_never_matches_NUL_end label part Hl) in Hm. discriminate. }
  destruct (scan_devices_outcome w devices label)
    as [(_ & st & Hs & Hd & Hp & _)
       | [(pre & d & post & table & i & part & st & Hdev & Hpre & Hi
           & Hf & Hs & Hd & Hp & _)
         | (pre & d & post & st & Hdev & Hpre & Hpanic & Hs & _)]];
    destruct (deviceByPartLabel_unfold w devices label _ _ Hs) as [_ Hfst];
    rewrite Hfst.
  - rewrite Hd. cbn [nonempty andb].
    split; [discriminate|]. split; [discriminate|]. split; [now left|].
    reflexivity.
  - exfalso. exact (Hnever d table i part Hi Hf).
  - assert (Hin : In d devices)
      by (rewrite Hdev; apply in_or_app; right; now left).
    split; [discriminate|]. split; [discriminate|]. split.
    + right. split; [reflexivity|]. now exists d.
    + intros Hq. rewrite Forall_forall in Hq. specialize (Hq d Hin).
      congruence.
Qed.

Lemma NUL_ended_label_not_found_witness :
  fst (deviceByPartLabel disk_world
         [go "/dev/sda"; go "/dev/sda1"; go "/dev/sda2"]
         (go "STBOOT" ++ [NUL]))
  = Err (ErrNoDeviceWithLabel (go "STBOOT" ++ [NUL])).
Proof.
  apply (proj2 (proj2 (proj2 (NUL_ended_label_not_found disk_world
           [go "/dev/sda"; go "/dev/sda1"; go "/dev/sda2"]
           (go "STBOOT" ++ [NUL])
           (ex_intro _ (go "STBOOT") (or_intror eq_refl)))))).
  repeat constructor.
Defined.

(* ------------------------------------------------------------------ *)
(** ** [decodeLabel], unit by unit *)

Lemma drop_zero_units_split (us : list Z) :
  exists n, us = repeat 0 n ++ drop_zero_units us
            /\ forall t, drop_zero_units us <> 0 :: t.
Proof.
  induction us as [|u us [n [Hs Hh]]].
  - exists 0%nat. split; [reflexivity | discriminate].
  - cbn [drop_zero_units]. destruct (Z.eqb_spec u 0) as [-> | Hne].
    + exists (S n). split; [cbn; now rewrite <- Hs | exact Hh].
    + exists 0%nat. split; [reflexivity|]. intros t H. injection H as H _.
      contradiction.
Qed.

Lemma repeat_rev (A : Type) (x : A) (n : nat) : rev (repeat x n) = repeat x n.
Proof.
  induction n as [|n IH]; [reflexivity|]. cbn [repeat rev]. rewrite IH.
  clear IH. induction n as [|n IH]; [reflexivity|]. cbn. now rewrite IH.
Qed.

Lemma drop_zero_units_tail (us : list Z) (t : list Z) (x : Z) :
  drop_zero_units us = t ++ [x] -> exists t', us = t' ++ [x].
Proof.
  destruct (drop_zero_units_split us) as [n [Hs _]]. intros H.
  exists (repeat 0 n ++ t). rewrite Hs at 1. rewrite H. apply app_assoc.
Qed.

Lemma trim_units_split (us : list Z) :
  exists n m,
    us = repeat 0 n ++ trim_units us ++ repeat 0 m
    /\ (forall t, trim_units us <> 0 :: t)
    /\ (forall t, trim_units us <> t ++ [0]).
Proof.
  unfold trim_units.
  destruct (drop_zero_units_split us) as [n [Hs Hh]].
  destruct (drop_zero_units_split (rev (drop_zero_units us))) as [m [Hr Hl]].
  exists n, m. split; [|split].
  - rewrite Hs at 1. f_equal.
    apply (f_equal (@rev Z)) in Hr. rewrite rev_involutive in Hr.
    rewrite Hr at 1. rewrite rev_app_distr, repeat_rev. reflexivity.
  - intros t H.
    apply (f_equal (@rev Z)) in Hr. rewrite rev_involutive in Hr.
    rewrite rev_app_distr, H in Hr. cbn [app] in Hr. now apply Hh in Hr.
  - intros t H. apply (f_equal (@rev Z)) in H.
    rewrite rev_involutive, rev_app_distr in H. cbn in H. now apply Hl in H.
Qed.

Lemma flat_map_zero_units (n : nat) :
  flat_map unit_to_utf8 (repeat 0 n) = repeat NUL n.
Proof. induction n as [|n IH]; [reflexivity|]. cbn. now rewrite IH. Qed.

(** Trimming the NUL bytes of the text is trimming the zero units. *)
Lemma Trim_units (us : list Z) :
  (forall u, In u us -> exists lo hi, u = code_unit lo hi) ->
  strings.Trim (flat_map unit_to_utf8 us) [NUL]
  = flat_map unit_to_utf8 (trim_units us).
Proof.
  intros Hrange.
  destruct (trim_units_split us) as [n [m [Hs [Hh Hl]]]].
  assert (Hin : forall u, In u (trim_units us) ->
                          exists lo hi, u = code_unit lo hi).
  { intros u Hu. apply Hrange. rewrite Hs. apply in_or_app. right.
    apply in_or_app. now left. }
  rewrite Hs at 1. rewrite !flat_map_app, !flat_map_zero_units.
  rewrite Trim_drop by apply Forall_cut_repeat.
  rewrite <- (app_nil_r (flat_map unit_to_utf8 (trim_units us))) at 1.
  apply Trim_padding; [| |constructor].
  - intros x t Hx. apply in_cutset_NUL_false. intros ->.
    destruct (trim_units us) as [|u rest] eqn:Hu; [discriminate|].
    assert (Hnz : u <> 0) by (intros ->; now apply (Hh rest)).
    destruct (unit_to_utf8_nonzero u (Hin u (or_introl eq_refl)) Hnz)
      as [Hne Hall].
    cbn [flat_map] in Hx. destruct (unit_to_utf8 u) as [|y e]; [contradiction|].
    injection Hx as -> _. inversion Hall. contradiction.
  - intros x t Hx. apply in_cutset_NUL_false. intros ->.
    destruct (exists_last (l := trim_units us)) as [rest [u Hu]].
    { intros E. rewrite E in Hx. destruct t; discriminate. }
    assert (Hnz : u <> 0) by (intros ->; now apply (Hl rest)).
    assert (Hu' : In u (trim_units us))
      by (rewrite Hu; apply in_or_app; right; now left).
    destruct (unit_to_utf8_nonzero u (Hin u Hu') Hnz) as [Hne Hall].
    rewrite Hu, flat_map_app in Hx. cbn [flat_map] in Hx.
    rewrite app_nil_r in Hx.
    destruct (exists_last Hne) as [e [y Hy]]. rewrite Hy in Hx, Hall.
    rewrite app_assoc in Hx. apply app_inj_tail in Hx. destruct Hx as [_ Hx].
    apply Forall_app in Hall. destruct Hall as [_ Hall]. inversion Hall.
    congruence.
Qed.

Lemma Runes_any_unit (lo hi : byte) (rest : gostring) :
  utf8.Runes (unit_to_utf8 (code_unit lo hi) ++ rest)
  = lone_rune (code_unit lo hi) :: utf8.Runes rest.
Proof.
  destruct (utf16.IsSurrogate (code_unit lo hi)) eqn:Hs.
  - unfold unit_to_utf8, lone_rune. rewrite Hs. reflexivity.
  - rewrite (lone_rune_id _ Hs). now apply Runes_unit.
Qed.

Lemma Runes_units (us : list Z) :
  (forall u, In u us -> exists lo hi, u = code_unit lo hi) ->
  utf8.Runes (flat_map unit_to_utf8 us) = map lone_rune us.
Proof.
  induction us as [|u us IH]; intros Hrange; [reflexivity|].
  destruct (Hrange u (or_introl eq_refl)) as [lo [hi ->]].
  cbn [flat_map map]. rewrite Runes_any_unit, IH; [reflexivity|].
  intros v Hv. apply Hrange. now right.
Qed.

(** X13. On an even-length input [decodeLabel] returns the UTF-8
    encodings, one after the other, of the input's code units without the
    zero units at its two ends, each unit decoded on its own; read back as
    UTF-8 the result is one rune per remaining unit, the unit itself or
    U+FFFD for a surrogate. *)
Theorem decodeLabel_unit_by_unit (b : list byte) :
  Nat.even (List.length b) = true ->
  decodeLabel b = Ok (flat_map unit_to_utf8 (trim_units (code_units b)))
  /\ utf8.Runes (flat_map unit_to_utf8 (trim_units (code_units b)))
     = map lone_rune (trim_units (code_units b)).
Proof.
  intros Heven.
  assert (Hin : forall u, In u (trim_units (code_units b)) ->
                          exists lo hi, u = code_unit lo hi).
  { intros u Hu. apply (code_units_In b).
    destruct (trim_units_split (code_units b)) as [n [m [Hs _]]].
    rewrite Hs. apply in_or_app. right. apply in_or_app. now left. }
  split.
  - rewrite decodeLabel_eq, <- Nat.negb_even, Heven. cbn [negb]. f_equal.
    unfold units_to_utf8. apply Trim_units. apply code_units_In.
  - now apply Runes_units.
Qed.

Lemma decodeLabel_unit_by_unit_witness :
  decodeLabel [x00; x00; xe9; x00; x3d; xd8; x00; x00]
  = Ok (flat_map unit_to_utf8
          (trim_units (code_units [x00; x00; xe9; x00; x3d; xd8; x00; x00]))).
Proof.
  apply (decodeLabel_unit_by_unit [x00; x00; xe9; x00; x3d; xd8; x00; x00]).
  reflexivity.
Defined.

(* ------------------------------------------------------------------ *)
(** ** The resolver matches substrings *)

(** X14. The resolver takes the first entry whose suffix holds the
    partition number anywhere: with no qualifying entry before it, the
    entry disk ++ q ++ number is returned for every q, also when the
    entry disk ++ number comes later in the list (partition 2 resolves to
    /dev/sda12 when that is listed before /dev/sda2). *)
Theorem resolve_substring
    (pre post : list gostring) (d q : gostring) (index : nat) :
  Forall (fun x => ~ partition_node d (strconv.Itoa index) x) pre ->
  resolve (pre ++ (d ++ q ++ strconv.Itoa index) :: post) d
    (strconv.Itoa index)
  = Some (d ++ q ++ strconv.Itoa index)
  /\ ~ partition_node d (strconv.Itoa index) d.
Proof.
  intros Hpre. split.
  - apply resolve_some. exists pre, post. split; [reflexivity|].
    split; [|exact Hpre].
    exists (q ++ strconv.Itoa index). split; [reflexivity|].
    exists q, []. now rewrite app_nil_r.
  - intros H.
    pose proof (partition_node_longer d _ d H (Itoa_nonempty index)). lia.
Qed.

Lemma resolve_substring_witness :
  resolve ([go "/dev/sda"; go "/dev/sda1"; go "/dev/sda10"; go "/dev/sda11"]
           ++ (go "/dev/sda" ++ go "1" ++ strconv.Itoa 2)
           :: [go "/dev/sda2"])
    (go "/dev/sda") (strconv.Itoa 2)
  = Some (go "/dev/sda12").
Proof.
  apply (resolve_substring
           [go "/dev/sda"; go "/dev/sda1"; go "/dev/sda10"; go "/dev/sda11"]
           [go "/dev/sda2"] (go "/dev/sda") (go "1") 2).
  repeat constructor; intros H; apply resolve_accepts in H;
    vm_compute in H; discriminate.
Defined.
